(** * PRCoords: conversions between WGS-84, GCJ-02 and BD-09 (prcoords.py)

    The program is embedded over an arithmetic interface, so that one
    translation of the source can be read in two ways:
    - on IEEE-754 binary64 numbers (Python's [float]), the machine reading;
    - on the real numbers, the reading in which the formulas of the
      documentation are stated.
    The functions of Python's [math] module form a second interface: the
    source only calls them, it does not define them.  [MathLib] gives
    the value of a call that returns; where a call raises is a third
    interface, [Errors].  The program is given twice: in [Section
    Program] every call is taken by its value, in [Module Py] a run
    returns or raises as Python does.  Integer literals of the source
    that meet a float are read as the float of the same value. *)

From Stdlib Require Import ZArith List Bool Floats Reals Lra Lia.
Import ListNotations.

Set Warnings "-inexact-float".

Set Implicit Arguments.

(** ** Decimal literals

    A literal of the source, such as [0.00669342162296594323], is kept as
    the pair of its digits and the number of digits after the point; each
    arithmetic decides how to read it. *)

Inductive lit : Set := Lit (digits : Z) (scale : nat).

Declare Scope lit_scope.
Delimit Scope lit_scope with lit.
Bind Scope lit_scope with lit.

Module LitSyntax.

Definition of_decimal (i : Decimal.int) (f : Decimal.uint) : lit :=
  Lit (Z.of_int (Decimal.app_int i f)) (Decimal.nb_digits f).

(** [1e-5] is read as [0.00001]; a literal with a positive exponent does
    not occur in the source. *)
Definition of_number (n : Number.number) : option lit :=
  match n with
  | Number.Decimal (Decimal.Decimal i f) => Some (of_decimal i f)
  | Number.Decimal (Decimal.DecimalExp i f (Decimal.Neg e)) =>
      let (m, k) := of_decimal i f in
      Some (Lit m (k + Nat.of_uint e))
  | _ => None
  end.

Definition to_number (l : lit) : option Number.number := None.

End LitSyntax.

Number Notation lit LitSyntax.of_number LitSyntax.to_number : lit_scope.

Definition lit_digits (l : lit) : Z := let (m, _) := l in m.
Definition lit_scale (l : lit) : nat := let (_, k) := l in k.

(** ** The two interfaces *)

(** The operations Python provides on [float] itself. *)
Record Arith : Type := {
  num : Type;
  dec : lit -> num;
  add : num -> num -> num;
  sub : num -> num -> num;
  mul : num -> num -> num;
  div : num -> num -> num;
  absn : num -> num;
  leb : num -> num -> bool;
  ltb : num -> num -> bool
}.

(** The part of the [math] module that the source uses. *)
Record MathLib (A : Arith) : Type := {
  math_pi : num A;
  math_sqrt : num A -> num A;
  math_sin : num A -> num A;
  math_cos : num A -> num A;
  math_asin : num A -> num A;
  math_atan2 : num A -> num A -> num A;
  math_pow : num A -> num A -> num A;
  math_hypot : num A -> num A -> num A;
  math_radians : num A -> num A
}.

Arguments dec {_} _%_lit.
Arguments add {_}.
Arguments sub {_}.
Arguments mul {_}.
Arguments div {_}.
Arguments absn {_}.
Arguments leb {_}.
Arguments ltb {_}.
Arguments math_pi {_}.
Arguments math_sqrt {_}.
Arguments math_sin {_}.
Arguments math_cos {_}.
Arguments math_asin {_}.
Arguments math_atan2 {_}.
Arguments math_pow {_}.
Arguments math_hypot {_}.
Arguments math_radians {_}.

Declare Scope num_scope.
Delimit Scope num_scope with num.
Notation "# l" := (dec l%lit) (at level 1, l at level 0, format "# l") : num_scope.
Infix "+" := add : num_scope.
Infix "-" := sub : num_scope.
Infix "*" := mul : num_scope.
Infix "/" := div : num_scope.
Infix "<=?" := leb : num_scope.
Notation "x >? y" := (ltb y x) : num_scope.

(** ** The exceptions of Python

    [MathLib] gives the value of a call of the [math] module that
    returns.  A function of the module raises instead of returning where
    the C function under it has no value, [math.sin] at an infinity for
    one, and the division of floats raises on a zero divisor; [+], [-],
    [*], [abs] and the comparisons of floats never raise.  Which
    arguments make a call raise is a third interface, next to [Arith]
    and [MathLib]. *)

Inductive exn : Set := ValueError | ZeroDivisionError | OverflowError.

Record Errors (A : Arith) : Type := {
  err_div : num A -> option exn;
  err_sqrt : num A -> option exn;
  err_sin : num A -> option exn;
  err_cos : num A -> option exn;
  err_atan2 : num A -> num A -> option exn;
  err_pow : num A -> num A -> option exn;
  err_hypot : num A -> num A -> option exn;
  err_radians : num A -> option exn
}.

Arguments err_div {_}.
Arguments err_sqrt {_}.
Arguments err_sin {_}.
Arguments err_cos {_}.
Arguments err_atan2 {_}.
Arguments err_pow {_}.
Arguments err_hypot {_}.
Arguments err_radians {_}.

(** The library that raises nowhere. *)
Definition never_raises (A : Arith) (E : Errors A) : Prop :=
  (forall y, err_div E y = None)
  /\ (forall x, err_sqrt E x = None)
  /\ (forall x, err_sin E x = None)
  /\ (forall x, err_cos E x = None)
  /\ (forall y x, err_atan2 E y x = None)
  /\ (forall x y, err_pow E x y = None)
  /\ (forall x y, err_hypot E x y = None)
  /\ (forall x, err_radians E x = None).

(** A run of a Python function returns a value or raises an exception. *)
Inductive outcome (X : Type) : Type :=
| Returns (x : X)
| Raises (e : exn).

Arguments Returns {X}.
Arguments Raises {X}.

(** ** The program *)

Section Program.

Variable A : Arith.
Variable L : MathLib A.

Local Open Scope num_scope.

Let F : Type := num A.

(** Ellipsoid parameters of Krasovsky 1940. *)
Definition GCJ_A : F := #6378245.
Definition GCJ_EE : F := #0.00669342162296594323.

(** Precision of the refined conversions. *)
Definition PRC_EPS : F := #1e-5.

(** The offsets of Baidu's coordinates. *)
Definition BD_DLAT : F := #0.0060.
Definition BD_DLON : F := #0.0065.

(** Mean radius of the earth, in meters. *)
Definition EARTH_R : F := #6371000.

(** [class Coords(namedtuple("Coords", "lat lon"))] *)
Record Coords : Type := mkCoords { lat : F; lon : F }.

Definition __add__ (self other : Coords) : Coords :=
  mkCoords (lat self + lat other) (lon self + lon other).

Definition __sub__ (self other : Coords) : Coords :=
  mkCoords (lat self - lat other) (lon self - lon other).

Definition __abs__ (self : Coords) : F :=
  math_hypot L (lat self) (lon self).

(** [hav = lambda theta: math.sin(theta / 2) ** 2]; the operator [**] on
    floats is the power function of the library. *)
Definition hav (theta : F) : F := math_pow L (math_sin L (theta / #2)) #2.

Definition distance (self other : Coords) : F :=
  let delta := __sub__ self other in
  #2 * EARTH_R
  * math_asin L
      (math_sqrt L
         (hav (math_radians L (lat delta))
          + math_cos L (math_radians L (lat self))
            * math_cos L (math_radians L (lat other))
            * hav (math_radians L (lon delta)))).

Definition sanity_in_china_p (coords : Coords) : bool :=
  (#0.8293 <=? lat coords) && (lat coords <=? #55.8271)
  && ((#72.004 <=? lon coords) && (lon coords <=? #137.8347)).

(** *** Diagnostics

    [warnings.warn] is the only effect of the program.  A computation
    returns its value together with the warnings it issued, in order. *)

Inductive diagnostic : Type :=
| NonChinese (wgs : Coords).

Definition M (X : Type) : Type := (X * list diagnostic)%type.

Definition ret {X} (x : X) : M X := (x, []).

Definition bind {X Y} (m : M X) (f : X -> M Y) : M Y :=
  (fst (f (fst m)), snd m ++ snd (f (fst m))).

Definition warn (d : diagnostic) : M unit := (tt, [d]).

Definition value {X} (m : M X) : X := fst m.
Definition warnings {X} (m : M X) : list diagnostic := snd m.

Notation "x <- m ;; k" := (bind m (fun x => k))
  (at level 61, m at next level, right associativity).
Notation "m ;; k" := (bind m (fun _ => k))
  (at level 61, right associativity).

(** *** WGS-84 to GCJ-02 *)

Definition dLat_m (x y : F) : F :=
  #(-100)
  + #2 * x
  + #3 * y
  + #0.2 * y * y
  + #0.1 * x * y
  + #0.2 * math_sqrt L (absn x)
  + (#2 * math_sin L (x * #6 * math_pi L)
     + #2 * math_sin L (x * #2 * math_pi L)
     + #2 * math_sin L (y * math_pi L)
     + #4 * math_sin L (y / #3 * math_pi L)
     + #16 * math_sin L (y / #12 * math_pi L)
     + #32 * math_sin L (y / #30 * math_pi L))
    * #20
    / #3.

Definition dLon_m (x y : F) : F :=
  #300
  + x
  + #2 * y
  + #0.1 * x * x
  + #0.1 * x * y
  + #0.1 * math_sqrt L (absn x)
  + (#2 * math_sin L (x * #6 * math_pi L)
     + #2 * math_sin L (x * #2 * math_pi L)
     + #2 * math_sin L (x * math_pi L)
     + #4 * math_sin L (x / #3 * math_pi L)
     + #15 * math_sin L (x / #12 * math_pi L)
     + #30 * math_sin L (x / #30 * math_pi L))
    * #20
    / #3.

Definition magic_of (radLat : F) : F :=
  #1 - GCJ_EE * math_pow L (math_sin L radLat) #2.

Definition lat_deg_arclen (radLat : F) : F :=
  math_radians L ((GCJ_A * (#1 - GCJ_EE)) * math_pow L (magic_of radLat) #1.5).

Definition lon_deg_arclen (radLat : F) : F :=
  math_radians L (GCJ_A * math_cos L radLat / math_sqrt L (magic_of radLat)).

Definition wgs_gcj (wgs : Coords) (check_china : bool) : M Coords :=
  if check_china && negb (sanity_in_china_p wgs) then
    warn (NonChinese wgs) ;;
    ret wgs
  else
    let x := lon wgs - #105 in
    let y := lat wgs - #35 in
    let radLat := math_radians L (lat wgs) in
    ret (mkCoords (lat wgs + dLat_m x y / lat_deg_arclen radLat)
                  (lon wgs + dLon_m x y / lon_deg_arclen radLat)).

(** *** GCJ-02 to WGS-84, one step *)

Definition gcj_wgs (gcj : Coords) (check_china : bool) : M Coords :=
  g <- wgs_gcj gcj check_china ;;
  ret (__sub__ gcj (__sub__ g gcj)).

(** *** GCJ-02 and BD-09 *)

Definition gcj_bd (gcj : Coords) (_dummy : bool) : Coords :=
  let y := lat gcj in
  let x := lon gcj in
  let r := math_sqrt L (x * x + y * y) + #0.00002 * math_sin L (math_radians L y * #3000) in
  let theta := math_atan2 L y x + #0.000003 * math_cos L (math_radians L x * #3000) in
  mkCoords (r * math_sin L theta + BD_DLAT) (r * math_cos L theta + BD_DLON).

Definition bd_gcj (bd : Coords) (_dummy : bool) : Coords :=
  let x := lon bd - BD_DLON in
  let y := lat bd - BD_DLAT in
  let r := math_sqrt L (x * x + y * y) - #0.00002 * math_sin L (math_radians L y * #3000) in
  let theta := math_atan2 L y x - #0.000003 * math_cos L (math_radians L x * #3000) in
  mkCoords (r * math_sin L theta) (r * math_cos L theta).

(** *** Compositions *)

Definition bd_wgs (bd : Coords) (check_china : bool) : M Coords :=
  gcj_wgs (bd_gcj bd false) check_china.

Definition wgs_bd (bd : Coords) (check_china : bool) : M Coords :=
  g <- wgs_gcj bd check_china ;;
  ret (gcj_bd g false).

(** *** The refined conversions

    A conversion function of the source takes a coordinate and a flag
    that has a default value; [_bored] calls [rev] with one argument
    and [fwd] with two. *)

Record conversion : Type := mkConversion {
  call : Coords -> bool -> M Coords;
  default : bool
}.

Definition call1 (f : conversion) (c : Coords) : M Coords :=
  call f c (default f).

(** The variables of [rev_bored]. *)
Record locals : Type := mkLocals {
  wgs_ : Coords;
  old_ : Coords;
  diff_ : Coords;
  i_ : nat
}.

(** [i < 10 and abs(diff) > PRC_EPS] *)
Definition loop_test (s : locals) : bool :=
  (i_ s <? 10)%nat && (__abs__ (diff_ s) >? PRC_EPS).

(** The body of the [while]. *)
Definition loop_body (fwd : conversion) (bad : Coords) (s : locals) : M locals :=
  g <- call fwd (wgs_ s) false ;;
  let diff := __sub__ g bad in
  ret (mkLocals (__sub__ (wgs_ s) diff) (wgs_ s) diff (S (i_ s))).

(** The [while] loop, unrolled at most [fuel] times. *)
Fixpoint loop (fuel : nat) (fwd : conversion) (bad : Coords) (s : locals) : M locals :=
  match fuel with
  | O => ret s
  | S fuel' =>
      if loop_test s then
        s' <- loop_body fwd bad s ;;
        loop fuel' fwd bad s'
      else ret s
  end.

Definition rev_bored_locals (fwd rev : conversion) (bad : Coords) : M locals :=
  wgs <- call1 rev bad ;;
  loop 10 fwd bad (mkLocals wgs bad (mkCoords #99 #99) 0).

Definition rev_bored (fwd rev : conversion) (bad : Coords) (check_china : bool)
  : M Coords :=
  s <- rev_bored_locals fwd rev bad ;;
  ret (wgs_ s).

(** [n] executions of the body, one after the other. *)
Fixpoint iterate (n : nat) (fwd : conversion) (bad : Coords) (s : locals) : M locals :=
  match n with
  | O => ret s
  | S n' =>
      s' <- loop_body fwd bad s ;;
      iterate n' fwd bad s'
  end.

Definition _bored (fwd rev : conversion) : conversion :=
  mkConversion (rev_bored fwd rev) true.

Definition wgs_gcj_fn : conversion := mkConversion wgs_gcj true.
Definition gcj_wgs_fn : conversion := mkConversion gcj_wgs true.
Definition gcj_bd_fn : conversion := mkConversion (fun c d => ret (gcj_bd c d)) false.
Definition bd_gcj_fn : conversion := mkConversion (fun c d => ret (bd_gcj c d)) false.
Definition bd_wgs_fn : conversion := mkConversion bd_wgs true.
Definition wgs_bd_fn : conversion := mkConversion wgs_bd true.

Definition gcj_wgs_bored : conversion := _bored wgs_gcj_fn gcj_wgs_fn.
Definition bd_gcj_bored : conversion := _bored gcj_bd_fn bd_gcj_fn.
Definition bd_wgs_bored : conversion := _bored wgs_bd_fn bd_wgs_fn.

End Program.

Arguments mkCoords {A}.
Arguments lat {A}.
Arguments lon {A}.
Arguments NonChinese {A}.
Arguments ret {A X}.
Arguments bind {A X Y}.
Arguments value {A X}.
Arguments warnings {A X}.
Arguments __add__ {A}.
Arguments __sub__ {A}.
Arguments sanity_in_china_p {A}.
Arguments mkConversion {A}.
Arguments call {A}.
Arguments default {A}.
Arguments call1 {A}.
Arguments mkLocals {A}.
Arguments wgs_ {A}.
Arguments old_ {A}.
Arguments diff_ {A}.
Arguments i_ {A}.
Arguments loop_body {A}.
Arguments loop {A}.
Arguments iterate {A}.

(** ** The program, with its exceptions

    The functions of the source once more, each call of the [math]
    module and each division in the place and order in which Python
    evaluates it.  A run ends with a value or with an exception, and
    carries the warnings issued up to that point. *)

Module Py.

Section Program.

Variable A : Arith.
Variable L : MathLib A.
Variable E : Errors A.

Local Open Scope num_scope.

Let F : Type := num A.

Definition run (X : Type) : Type := (outcome X * list (diagnostic A))%type.

Definition ret {X} (x : X) : run X := (Returns x, []).

Definition raise {X} (e : exn) : run X := (Raises e, []).

Definition bind {X Y} (m : run X) (f : X -> run Y) : run Y :=
  match fst m with
  | Returns x => (fst (f x), snd m ++ snd (f x))
  | Raises e => (Raises e, snd m)
  end.

Definition warn (d : diagnostic A) : run unit := (Returns tt, [d]).

Definition map {X Y} (g : X -> Y) (m : run X) : run Y :=
  match fst m with
  | Returns x => (Returns (g x), snd m)
  | Raises e => (Raises e, snd m)
  end.

Notation "x <- m ;; k" := (bind m (fun x => k))
  (at level 61, m at next level, right associativity).
Notation "m ;; k" := (bind m (fun _ => k))
  (at level 61, right associativity).

(** A call that raises when [e] says so and returns [v] otherwise. *)
Definition checked {X} (e : option exn) (v : X) : run X :=
  match e with
  | Some x => raise x
  | None => ret v
  end.

Definition quot (x y : F) : run F := checked (err_div E y) (x / y).
Definition sqrt (x : F) : run F := checked (err_sqrt E x) (math_sqrt L x).
Definition sin (x : F) : run F := checked (err_sin E x) (math_sin L x).
Definition cos (x : F) : run F := checked (err_cos E x) (math_cos L x).
Definition atan2 (y x : F) : run F := checked (err_atan2 E y x) (math_atan2 L y x).
Definition pow (x y : F) : run F := checked (err_pow E x y) (math_pow L x y).
Definition hypot (x y : F) : run F := checked (err_hypot E x y) (math_hypot L x y).
Definition radians (x : F) : run F := checked (err_radians E x) (math_radians L x).

(** [abs(self)] *)
Definition __abs__ (self : Coords A) : run F := hypot (lat self) (lon self).

(** *** WGS-84 to GCJ-02 *)

Definition dLat_m (x y : F) : run F :=
  q <- sqrt (absn x) ;;
  s1 <- sin (x * #6 * math_pi L) ;;
  s2 <- sin (x * #2 * math_pi L) ;;
  s3 <- sin (y * math_pi L) ;;
  y3 <- quot y #3 ;;
  s4 <- sin (y3 * math_pi L) ;;
  y12 <- quot y #12 ;;
  s5 <- sin (y12 * math_pi L) ;;
  y30 <- quot y #30 ;;
  s6 <- sin (y30 * math_pi L) ;;
  t <- quot ((#2 * s1 + #2 * s2 + #2 * s3 + #4 * s4 + #16 * s5 + #32 * s6) * #20)
            #3 ;;
  ret (#(-100) + #2 * x + #3 * y + #0.2 * y * y + #0.1 * x * y + #0.2 * q + t).

Definition dLon_m (x y : F) : run F :=
  q <- sqrt (absn x) ;;
  s1 <- sin (x * #6 * math_pi L) ;;
  s2 <- sin (x * #2 * math_pi L) ;;
  s3 <- sin (x * math_pi L) ;;
  x3 <- quot x #3 ;;
  s4 <- sin (x3 * math_pi L) ;;
  x12 <- quot x #12 ;;
  s5 <- sin (x12 * math_pi L) ;;
  x30 <- quot x #30 ;;
  s6 <- sin (x30 * math_pi L) ;;
  t <- quot ((#2 * s1 + #2 * s2 + #2 * s3 + #4 * s4 + #15 * s5 + #30 * s6) * #20)
            #3 ;;
  ret (#300 + x + #2 * y + #0.1 * x * x + #0.1 * x * y + #0.1 * q + t).

Definition wgs_gcj (wgs : Coords A) (check_china : bool) : run (Coords A) :=
  if check_china && negb (sanity_in_china_p wgs) then
    warn (NonChinese wgs) ;;
    ret wgs
  else
    let x := lon wgs - #105 in
    let y := lat wgs - #35 in
    dLat <- dLat_m x y ;;
    dLon <- dLon_m x y ;;
    radLat <- radians (lat wgs) ;;
    s <- sin radLat ;;
    s2 <- pow s #2 ;;
    let magic := #1 - GCJ_EE A * s2 in
    m <- pow magic #1.5 ;;
    lat_deg_arclen <- radians ((GCJ_A A * (#1 - GCJ_EE A)) * m) ;;
    c <- cos radLat ;;
    r <- sqrt magic ;;
    d <- quot (GCJ_A A * c) r ;;
    lon_deg_arclen <- radians d ;;
    dy <- quot dLat lat_deg_arclen ;;
    dx <- quot dLon lon_deg_arclen ;;
    ret (mkCoords (lat wgs + dy) (lon wgs + dx)).

(** *** GCJ-02 to WGS-84, one step *)

Definition gcj_wgs (gcj : Coords A) (check_china : bool) : run (Coords A) :=
  g <- wgs_gcj gcj check_china ;;
  ret (__sub__ gcj (__sub__ g gcj)).

(** *** GCJ-02 and BD-09 *)

Definition gcj_bd (gcj : Coords A) (_dummy : bool) : run (Coords A) :=
  let y := lat gcj in
  let x := lon gcj in
  q <- sqrt (x * x + y * y) ;;
  ry <- radians y ;;
  sy <- sin (ry * #3000) ;;
  let r := q + #0.00002 * sy in
  a <- atan2 y x ;;
  rx <- radians x ;;
  cx <- cos (rx * #3000) ;;
  let theta := a + #0.000003 * cx in
  st <- sin theta ;;
  ct <- cos theta ;;
  ret (mkCoords (r * st + BD_DLAT A) (r * ct + BD_DLON A)).

Definition bd_gcj (bd : Coords A) (_dummy : bool) : run (Coords A) :=
  let x := lon bd - BD_DLON A in
  let y := lat bd - BD_DLAT A in
  q <- sqrt (x * x + y * y) ;;
  ry <- radians y ;;
  sy <- sin (ry * #3000) ;;
  let r := q - #0.00002 * sy in
  a <- atan2 y x ;;
  rx <- radians x ;;
  cx <- cos (rx * #3000) ;;
  let theta := a - #0.000003 * cx in
  st <- sin theta ;;
  ct <- cos theta ;;
  ret (mkCoords (r * st) (r * ct)).

(** *** Compositions *)

Definition bd_wgs (bd : Coords A) (check_china : bool) : run (Coords A) :=
  g <- bd_gcj bd false ;;
  gcj_wgs g check_china.

Definition wgs_bd (bd : Coords A) (check_china : bool) : run (Coords A) :=
  g <- wgs_gcj bd check_china ;;
  gcj_bd g false.

(** *** The refined conversions *)

Record conversion : Type := mkConversion {
  call : Coords A -> bool -> run (Coords A);
  default : bool
}.

Definition call1 (f : conversion) (c : Coords A) : run (Coords A) :=
  call f c (default f).

(** [i < 10 and abs(diff) > PRC_EPS]: [abs] is not evaluated once [i]
    has reached 10. *)
Definition loop_test (s : locals A) : run bool :=
  if (i_ s <? 10)%nat then
    m <- __abs__ (diff_ s) ;;
    ret (m >? PRC_EPS A)
  else ret false.

(** The body of the [while]. *)
Definition loop_body (fwd : conversion) (bad : Coords A) (s : locals A)
  : run (locals A) :=
  g <- call fwd (wgs_ s) false ;;
  let diff := __sub__ g bad in
  ret (mkLocals (__sub__ (wgs_ s) diff) (wgs_ s) diff (S (i_ s))).

(** The [while] loop, unrolled at most [fuel] times. *)
Fixpoint loop (fuel : nat) (fwd : conversion) (bad : Coords A) (s : locals A)
  : run (locals A) :=
  match fuel with
  | O => ret s
  | S fuel' =>
      t <- loop_test s ;;
      if t then
        s' <- loop_body fwd bad s ;;
        loop fuel' fwd bad s'
      else ret s
  end.

Definition rev_bored_locals (fwd rev : conversion) (bad : Coords A)
  : run (locals A) :=
  wgs <- call1 rev bad ;;
  loop 10 fwd bad (mkLocals wgs bad (mkCoords #99 #99) 0).

Definition rev_bored (fwd rev : conversion) (bad : Coords A) (check_china : bool)
  : run (Coords A) :=
  s <- rev_bored_locals fwd rev bad ;;
  ret (wgs_ s).

Definition _bored (fwd rev : conversion) : conversion :=
  mkConversion (rev_bored fwd rev) true.

Definition wgs_gcj_fn : conversion := mkConversion wgs_gcj true.
Definition gcj_wgs_fn : conversion := mkConversion gcj_wgs true.
Definition gcj_bd_fn : conversion := mkConversion gcj_bd false.
Definition bd_gcj_fn : conversion := mkConversion bd_gcj false.
Definition bd_wgs_fn : conversion := mkConversion bd_wgs true.
Definition wgs_bd_fn : conversion := mkConversion wgs_bd true.

Definition gcj_wgs_bored : conversion := _bored wgs_gcj_fn gcj_wgs_fn.
Definition bd_gcj_bored : conversion := _bored gcj_bd_fn bd_gcj_fn.
Definition bd_wgs_bored : conversion := _bored wgs_bd_fn bd_wgs_fn.

End Program.

Arguments ret {A X}.
Arguments raise {A X}.
Arguments bind {A X Y}.
Arguments map {A X Y}.
Arguments checked {A X}.
Arguments mkConversion {A}.
Arguments call {A}.
Arguments default {A}.
Arguments call1 {A}.

End Py.

(** ** The machine reading: IEEE-754 binary64 *)

Module B64.

(** The nearest binary64 number to [m / 10^k], ties to even: the way
    Python reads a literal. *)
Definition of_lit (l : lit) : float :=
  let den := S754_finite false (Z.to_pos (10 ^ Z.of_nat (lit_scale l))) 0 in
  match lit_digits l with
  | Z0 => PrimFloat.zero
  | Zpos p => SF2Prim (SF64div (S754_finite false p 0) den)
  | Zneg p => SF2Prim (SF64div (S754_finite true p 0) den)
  end.

Definition arith : Arith := {|
  num := float;
  dec := of_lit;
  add := PrimFloat.add;
  sub := PrimFloat.sub;
  mul := PrimFloat.mul;
  div := PrimFloat.div;
  absn := PrimFloat.abs;
  leb := PrimFloat.leb;
  ltb := PrimFloat.ltb
|}.

Definition point (la lo : float) : Coords arith := @mkCoords arith la lo.

(** The math library comes from the platform.  The symmetry of the
    distance needs three of its properties: [radians] and [sin] are odd
    functions, and the square of [-x] is the square of [x]. *)
Definition odd_library (L : MathLib arith) : Prop :=
  (forall x : float,
     math_radians L (PrimFloat.opp x) = PrimFloat.opp (math_radians L x))
  /\ (forall x : float,
        math_sin L (PrimFloat.opp x) = PrimFloat.opp (math_sin L x))
  /\ (forall x : float,
        math_pow L (PrimFloat.opp x) (of_lit 2) = math_pow L x (of_lit 2)).

Local Open Scope float_scope.

(** [==] on coordinates: the components are compared with [==]. *)
Definition equal (a b : Coords arith) : bool :=
  (lat a =? lat b) && (lon a =? lon b).

Definition finite (c : Coords arith) : bool :=
  is_finite (lat c) && is_finite (lon c).

(** [hypot] of two finite numbers is not below zero. *)
Definition nonneg_hypot (L : MathLib arith) : Prop :=
  forall x y : float,
    is_finite x = true -> is_finite y = true ->
    (0 <=? math_hypot L x y) = true.

(** A library of truncated power series.  It has the properties asked
    of the library of the platform, which can thus be met together. *)
Definition series : MathLib arith :=
  @Build_MathLib arith
    3.141592653589793
    PrimFloat.sqrt
    (fun x => x * (1 - x * x / 6 * (1 - x * x / 20)))
    (fun x => 1 - x * x / 2 * (1 - x * x / 12))
    (fun x => x * (1 + x * x / 6 * (1 + x * x * 9 / 20)))
    (fun y x => y / x * (1 - y / x * (y / x) / 3))
    (fun x y => if y =? 2 then x * x else x * PrimFloat.sqrt x)
    (fun x y => PrimFloat.sqrt (x * x + y * y))
    (fun x => x * 0.017453292519943295).

(** Rounding a mantissa that is not negative gives a number of the
    sign asked for, never a NaN. *)
Definition signed (s : bool) (f : spec_float) : Prop :=
  match f with
  | S754_zero s' | S754_infinity s' | S754_finite s' _ _ => s' = s
  | S754_nan => False
  end.

(** A binary64 number that is finite in the sense of [is_finite]. *)
Definition finite_SF (f : spec_float) : Prop :=
  match f with
  | S754_zero _ | S754_finite _ _ _ => True
  | _ => False
  end.

End B64.

(** ** The ideal reading: real numbers *)

Module Ideal.

Local Open Scope R_scope.

Definition of_lit (l : lit) : R :=
  match lit_scale l with
  | O => IZR (lit_digits l)
  | S _ => Q2R (QArith_base.Qmake (lit_digits l) (Pos.pow 10 (Pos.of_nat (lit_scale l))))
  end.

Definition Rleb (x y : R) : bool := if Rle_dec x y then true else false.
Definition Rltb (x y : R) : bool := if Rlt_dec x y then true else false.

Definition arith : Arith := {|
  num := R;
  dec := of_lit;
  add := Rplus;
  sub := Rminus;
  mul := Rmult;
  div := Rdiv;
  absn := Rabs;
  leb := Rleb;
  ltb := Rltb
|}.

(** The angle of the point [(x, y)], in (-PI, PI]. *)
Definition Ratan2 (y x : R) : R :=
  if Rlt_dec 0 x then atan (y / x)
  else if Rlt_dec x 0 then
    if Rle_dec 0 y then atan (y / x) + PI else atan (y / x) - PI
  else if Rlt_dec 0 y then PI / 2
  else if Rlt_dec y 0 then - (PI / 2)
  else 0.

(** [x] to the power [y]; where [math.pow] has no real value (a
    negative base with a fractional exponent) the result is 0. *)
Definition Rpow (x y : R) : R :=
  if Rlt_dec 0 x then Rpower x y
  else if Req_EM_T (IZR (Int_part y)) y then powerRZ x (Int_part y)
  else 0.

Definition Rhypot (x y : R) : R := R_sqrt.sqrt (x * x + y * y).

Definition Rradians (d : R) : R := d * (PI / 180).

Definition math : MathLib arith :=
  @Build_MathLib arith
    PI R_sqrt.sqrt Rtrigo_def.sin Rtrigo_def.cos Ratan.asin
    Ratan2 Rpow Rhypot Rradians.

Definition point (la lo : R) : Coords arith := @mkCoords arith la lo.

(** On the real numbers a division raises on the divisor 0, the square
    root below 0, and the power where it has no real value. *)
Definition errors : Errors arith :=
  @Build_Errors arith
    (fun y : R => if Req_EM_T y 0 then Some ZeroDivisionError else None)
    (fun x : R => if Rlt_dec x 0 then Some ValueError else None)
    (fun _ => None)
    (fun _ => None)
    (fun _ _ => None)
    (fun x y : R =>
       if Rlt_dec x 0 then
         if Req_EM_T (IZR (Int_part y)) y then None else Some ValueError
       else if Req_EM_T x 0 then
         if Rlt_dec y 0 then Some ValueError else None
       else None)
    (fun _ _ => None)
    (fun _ => None).

End Ideal.

(** ** The formulas of the documentation, on the real numbers *)

Module Doc.

Local Open Scope R_scope.

Definition a : R := 6378245.
Definition e2 : R := 0.00669342162296594323.

Definition rad (d : R) : R := d * PI / 180.

Definition dLat (x y : R) : R :=
  -100 + 2 * x + 3 * y + 0.2 * y ^ 2 + 0.1 * x * y + 0.2 * sqrt (Rabs x)
  + (20 / 3)
    * (2 * sin (6 * PI * x) + 2 * sin (2 * PI * x) + 2 * sin (PI * y)
       + 4 * sin (PI * y / 3) + 16 * sin (PI * y / 12) + 32 * sin (PI * y / 30)).

Definition dLon (x y : R) : R :=
  300 + x + 2 * y + 0.1 * x ^ 2 + 0.1 * x * y + 0.1 * sqrt (Rabs x)
  + (20 / 3)
    * (2 * sin (6 * PI * x) + 2 * sin (2 * PI * x) + 2 * sin (PI * x)
       + 4 * sin (PI * x / 3) + 15 * sin (PI * x / 12) + 30 * sin (PI * x / 30)).

Definition magic (lat : R) : R := 1 - e2 * (sin (rad lat)) ^ 2.

Definition latArcLen (lat : R) : R :=
  rad (a * (1 - e2) * Rpower (magic lat) 1.5).

Definition lonArcLen (lat : R) : R :=
  rad (a * cos (rad lat) / sqrt (magic lat)).

Definition wgsToGcj (lat lon : R) : R * R :=
  let x := lon - 105 in
  let y := lat - 35 in
  (lat + dLat x y / latArcLen lat, lon + dLon x y / lonArcLen lat).

Definition gcjToBd (lat lon : R) : R * R :=
  let r := sqrt (lon ^ 2 + lat ^ 2) + 0.00002 * sin (3000 * rad lat) in
  let theta := Ideal.Ratan2 lat lon + 0.000003 * cos (3000 * rad lon) in
  (r * sin theta + 0.0060, r * cos theta + 0.0065).

Definition bdToGcj (lat lon : R) : R * R :=
  let y := lat - 0.0060 in
  let x := lon - 0.0065 in
  let r := sqrt (x ^ 2 + y ^ 2) - 0.00002 * sin (3000 * rad y) in
  let theta := Ideal.Ratan2 y x - 0.000003 * cos (3000 * rad x) in
  (r * sin theta, r * cos theta).

End Doc.

(** ** The formulas of the documentation, on binary64 numbers

    The formulas once more, with the operations of binary64 numbers
    and the functions of a math library [L].  Sums and products of
    binary64 numbers depend on the order in which they are taken; the
    order is the one of the source. *)

Module Doc64.

Section Formulas.

Variable L : MathLib B64.arith.

Local Open Scope float_scope.

Definition dLat (x y : float) : float :=
  -100 + 2 * x + 3 * y + 0.2 * y * y + 0.1 * x * y
  + 0.2 * math_sqrt L (abs x)
  + (2 * math_sin L (x * 6 * math_pi L)
     + 2 * math_sin L (x * 2 * math_pi L)
     + 2 * math_sin L (y * math_pi L)
     + 4 * math_sin L (y / 3 * math_pi L)
     + 16 * math_sin L (y / 12 * math_pi L)
     + 32 * math_sin L (y / 30 * math_pi L))
    * 20 / 3.

Definition dLon (x y : float) : float :=
  300 + x + 2 * y + 0.1 * x * x + 0.1 * x * y
  + 0.1 * math_sqrt L (abs x)
  + (2 * math_sin L (x * 6 * math_pi L)
     + 2 * math_sin L (x * 2 * math_pi L)
     + 2 * math_sin L (x * math_pi L)
     + 4 * math_sin L (x / 3 * math_pi L)
     + 15 * math_sin L (x / 12 * math_pi L)
     + 30 * math_sin L (x / 30 * math_pi L))
    * 20 / 3.

Definition magic (lat : float) : float :=
  1 - 0.00669342162296594323
      * math_pow L (math_sin L (math_radians L lat)) 2.

Definition latArcLen (lat : float) : float :=
  math_radians L
    (6378245 * (1 - 0.00669342162296594323) * math_pow L (magic lat) 1.5).

Definition lonArcLen (lat : float) : float :=
  math_radians L
    (6378245 * math_cos L (math_radians L lat) / math_sqrt L (magic lat)).

Definition wgsToGcj (lat lon : float) : float * float :=
  let x := lon - 105 in
  let y := lat - 35 in
  (lat + dLat x y / latArcLen lat, lon + dLon x y / lonArcLen lat).

Definition gcjToBd (lat lon : float) : float * float :=
  let r :=
    math_sqrt L (lon * lon + lat * lat)
    + 0.00002 * math_sin L (3000 * math_radians L lat) in
  let theta :=
    math_atan2 L lat lon + 0.000003 * math_cos L (3000 * math_radians L lon) in
  (r * math_sin L theta + 0.0060, r * math_cos L theta + 0.0065).

Definition bdToGcj (lat lon : float) : float * float :=
  let y := lat - 0.0060 in
  let x := lon - 0.0065 in
  let r :=
    math_sqrt L (x * x + y * y)
    - 0.00002 * math_sin L (3000 * math_radians L y) in
  let theta :=
    math_atan2 L y x - 0.000003 * math_cos L (3000 * math_radians L x) in
  (r * math_sin L theta, r * math_cos L theta).

End Formulas.

End Doc64.

(** ** What the documentation says of a refined conversion, step by step

    "Start from [estimate = G(target)] and the sentinel
    [diff = (99, 99)].  Repeat up to 10 times while [|diff| > PRC_EPS]:
    [diff <- F(estimate, checkChina=false) - target];
    [estimate <- estimate - diff].  Return [estimate]."  [F] and [G] are
    any two functions that return or raise; the magnitude is the planar
    one, [hypot]. *)

Module Refiner.

Section Steps.

Variable A : Arith.
Variable L : MathLib A.
Variable E : Errors A.

Local Open Scope num_scope.

Record progress : Type := mkProgress {
  estimate : Coords A;
  last_diff : Coords A;
  rounds : nat
}.

Definition minus (a b : Coords A) : Coords A :=
  mkCoords (lat a - lat b) (lon a - lon b).

Definition magnitude (c : Coords A) : Py.run A (num A) :=
  Py.hypot L E (lat c) (lon c).

Fixpoint repeat_up_to (times : nat)
    (forward : Coords A -> bool -> Py.run A (Coords A))
    (target : Coords A) (p : progress) : Py.run A progress :=
  match times with
  | O => Py.ret p
  | S times' =>
      Py.bind (magnitude (last_diff p)) (fun m =>
        if ltb (dec 1e-5) m then
          Py.bind (forward (estimate p) false) (fun f =>
            let diff := minus f target in
            repeat_up_to times' forward target
              (mkProgress (minus (estimate p) diff) diff (S (rounds p))))
        else Py.ret p)
  end.

Definition refine
    (forward : Coords A -> bool -> Py.run A (Coords A))
    (inverse : Coords A -> Py.run A (Coords A))
    (target : Coords A) : Py.run A progress :=
  Py.bind (inverse target) (fun first =>
    repeat_up_to 10 forward target
      (mkProgress first (mkCoords (dec 99) (dec 99)) 0)).

(** The variables of [rev_bored] that the documentation speaks of. *)
Definition of_locals (s : locals A) : progress :=
  mkProgress (wgs_ s) (diff_ s) (i_ s).

End Steps.

End Refiner.

(** A conversion of the program with exceptions returns as a conversion
    of the program does: same default flag, and each run that returns
    gives the value and the warnings of that conversion. *)
Definition returns_as (A : Arith) (f : Py.conversion A) (g : conversion A) : Prop :=
  Py.default f = default g
  /\ forall (c v : Coords A) (b : bool) (w : list (diagnostic A)),
       Py.call f c b = (Returns v, w) -> call g c b = (v, w).

(** ** Sample coordinates *)

(** London, the point outside the box that the documentation uses. *)
Definition london : Coords Ideal.arith := Ideal.point 51.5074 (-0.1278).
Definition london64 : Coords B64.arith := B64.point 51.5074 (-0.1278).

(** The point at latitude 0, longitude 0, outside the box as well. *)
Definition origin : Coords Ideal.arith := Ideal.point 0 0.

(** The reference center of the distortion model, inside the box. *)
Definition center : Coords Ideal.arith := Ideal.point 35 105.

(** ** Tactics *)

(** Unfolds the real-number reading down to the operations of [R]. *)
Ltac ideal_unfold :=
  cbv [dec add sub mul div absn leb ltb num Ideal.arith Ideal.of_lit
       lit_digits lit_scale
       math_pi math_sqrt math_sin math_cos math_asin math_atan2 math_pow
       math_hypot math_radians Ideal.math Ideal.point
       GCJ_A GCJ_EE PRC_EPS BD_DLAT BD_DLON EARTH_R] in *;
  cbv [Pos.pow Pos.of_nat Pos.iter Pos.mul Pos.succ Pos.add] in *.

(** ** Reading of the literals *)

Example lit_reads_fraction :
  (0.00669342162296594323)%lit = Lit 669342162296594323 20.
Proof. reflexivity. Qed.

Example lit_reads_integer : (6378245)%lit = Lit 6378245 0.
Proof. reflexivity. Qed.

Example lit_reads_trailing_zero : (0.0060)%lit = Lit 60 4.
Proof. reflexivity. Qed.

Example lit_reads_exponent : (1e-5)%lit = Lit 1 5.
Proof. reflexivity. Qed.

Example lit_reads_negative : (-100)%lit = Lit (-100) 0.
Proof. reflexivity. Qed.

(** ** Facts that hold in every arithmetic *)

Section Facts.

Variable A : Arith.
Variable L : MathLib A.

Lemma bind_ret_l : forall (X Y : Type) (x : X) (f : X -> M A Y),
  bind (ret x) f = f x.
Proof. intros X Y x f. unfold bind, ret. simpl. destruct (f x); reflexivity. Qed.

Lemma bind_ret_r : forall (X : Type) (m : M A X), bind m ret = m.
Proof.
  intros X [x w]. unfold bind, ret. simpl. now rewrite app_nil_r.
Qed.

Lemma bind_assoc : forall (X Y Z : Type) (m : M A X) (f : X -> M A Y) (g : Y -> M A Z),
  bind (bind m f) g = bind m (fun x => bind (f x) g).
Proof.
  intros X Y Z m f g. unfold bind. simpl. now rewrite app_assoc.
Qed.

Lemma value_bind : forall (X Y : Type) (m : M A X) (f : X -> M A Y),
  value (bind m f) = value (f (value m)).
Proof. reflexivity. Qed.

Lemma warnings_bind : forall (X Y : Type) (m : M A X) (f : X -> M A Y),
  warnings (bind m f) = warnings m ++ warnings (f (value m)).
Proof. reflexivity. Qed.

(** The two branches of [wgs_gcj]. *)

Lemma wgs_gcj_passthrough : forall wgs : Coords A,
  sanity_in_china_p wgs = false ->
  wgs_gcj L wgs true = (wgs, [NonChinese wgs]).
Proof.
  intros wgs H. unfold wgs_gcj. rewrite H. reflexivity.
Qed.

Lemma wgs_gcj_distorts : forall (wgs : Coords A) (check_china : bool),
  check_china = false \/ sanity_in_china_p wgs = true ->
  wgs_gcj L wgs check_china
  = ret (mkCoords
           (add (lat wgs)
                (div (dLat_m L (sub (lon wgs) (dec 105)) (sub (lat wgs) (dec 35)))
                     (lat_deg_arclen L (math_radians L (lat wgs)))))
           (add (lon wgs)
                (div (dLon_m L (sub (lon wgs) (dec 105)) (sub (lat wgs) (dec 35)))
                     (lon_deg_arclen L (math_radians L (lat wgs)))))).
Proof.
  intros wgs b [-> | H]; unfold wgs_gcj.
  - reflexivity.
  - rewrite H, andb_false_r. reflexivity.
Qed.

Lemma wgs_gcj_unchecked_silent : forall wgs : Coords A,
  warnings (wgs_gcj L wgs false) = [].
Proof. reflexivity. Qed.

(** The loop of [rev_bored]. *)

Lemma iterate_S : forall n fwd bad (s : locals A),
  iterate (S n) fwd bad s
  = bind (loop_body fwd bad s) (fun s' => iterate n fwd bad s').
Proof. reflexivity. Qed.

Lemma iterate_snoc : forall n fwd bad (s : locals A),
  iterate (S n) fwd bad s
  = bind (iterate n fwd bad s) (fun s' => loop_body fwd bad s').
Proof.
  induction n as [| n IH]; intros fwd bad s.
  - simpl. now rewrite bind_ret_l, bind_ret_r.
  - rewrite iterate_S. rewrite (iterate_S n). rewrite bind_assoc.
    unfold bind at 1. unfold bind at 2. now rewrite IH.
Qed.

Lemma loop_body_counts : forall fwd bad (s : locals A),
  i_ (value (loop_body fwd bad s)) = S (i_ s).
Proof. reflexivity. Qed.

Lemma iterate_counts : forall n fwd bad (s : locals A),
  i_ (value (iterate n fwd bad s)) = (i_ s + n)%nat.
Proof.
  induction n as [| n IH]; intros fwd bad s.
  - simpl. lia.
  - rewrite iterate_S, value_bind, IH, loop_body_counts. lia.
Qed.

(** The loop stops by its own test within the ten rounds it is given:
    it is [n] executions of the body, the test held before each of them
    and fails after the last. *)
Lemma loop_unrolls : forall fuel fwd bad (s : locals A),
  (i_ s + fuel = 10)%nat ->
  exists n : nat,
    (n <= fuel)%nat
    /\ loop L fuel fwd bad s = iterate n fwd bad s
    /\ loop_test L (value (iterate n fwd bad s)) = false
    /\ (forall k, (k < n)%nat ->
          loop_test L (value (iterate k fwd bad s)) = true).
Proof.
  induction fuel as [| fuel IH]; intros fwd bad s Hi.
  - exists 0%nat. repeat split; try lia.
    simpl. unfold loop_test.
    replace (i_ s) with 10%nat by lia. reflexivity.
  - simpl. destruct (loop_test L s) eqn:Ht.
    + destruct (IH fwd bad (value (loop_body fwd bad s))) as (n & Hn & Hl & Hstop & Hgo).
      { rewrite loop_body_counts. lia. }
      exists (S n). repeat split.
      * lia.
      * rewrite iterate_S. unfold bind. unfold value in Hl. now rewrite Hl.
      * rewrite iterate_S, value_bind. exact Hstop.
      * intros [| k] Hk.
        -- exact Ht.
        -- rewrite iterate_S, value_bind. apply Hgo. lia.
    + exists 0%nat. repeat split; try lia.
      * exact Ht.
Qed.

Lemma rev_bored_flag_unused : forall fwd rev (bad : Coords A) (b1 b2 : bool),
  rev_bored L fwd rev bad b1 = rev_bored L fwd rev bad b2.
Proof. reflexivity. Qed.

Lemma loop_depends_on_unchecked_fwd : forall fuel fwd fwd' bad (s : locals A),
  (forall c, call fwd c false = call fwd' c false) ->
  loop L fuel fwd bad s = loop L fuel fwd' bad s.
Proof.
  induction fuel as [| fuel IH]; intros fwd fwd' bad s Hf.
  - reflexivity.
  - simpl. destruct (loop_test L s); [| reflexivity].
    unfold loop_body. rewrite Hf. unfold bind. simpl.
    now rewrite (IH fwd fwd').
Qed.

Lemma rev_bored_depends_on : forall fwd fwd' rev rev' (bad : Coords A) (b b' : bool),
  (forall c, call fwd c false = call fwd' c false) ->
  call1 rev bad = call1 rev' bad ->
  rev_bored L fwd rev bad b = rev_bored L fwd' rev' bad b'.
Proof.
  intros fwd fwd' rev rev' bad b b' Hf Hr.
  unfold rev_bored, rev_bored_locals. rewrite Hr.
  unfold bind at 2. unfold bind at 3.
  now rewrite (loop_depends_on_unchecked_fwd 10 fwd fwd').
Qed.

End Facts.

(** ** Facts of the machine reading *)

Section MachineFacts.

(** The literals of the source, read by [B64.of_lit], are the binary64
    numbers that the parser of floating-point literals gives. *)
Lemma b64_literals :
  map (@dec B64.arith)
      [6378245; 0.00669342162296594323; 1e-5; 0.0060; 0.0065; 6371000;
       0.8293; 55.8271; 72.004; 137.8347; -100; 0.2; 0.1; 1.5; 0.00002;
       0.000003; 3000; 99; 105; 35; 300; 1; 2; 3; 4; 6; 12; 15; 16; 20;
       30; 32]%lit
  = [6378245; 0.00669342162296594323; 1e-5; 0.0060; 0.0065; 6371000;
     0.8293; 55.8271; 72.004; 137.8347; -100; 0.2; 0.1; 1.5; 0.00002;
     0.000003; 3000; 99; 105; 35; 300; 1; 2; 3; 4; 6; 12; 15; 16; 20;
     30; 32]%float.
Proof. vm_compute. reflexivity. Qed.

Lemma b64_box_south : @dec B64.arith 0.8293 = 0.8293%float.
Proof. vm_compute. reflexivity. Qed.

Lemma b64_box_north : @dec B64.arith 55.8271 = 55.8271%float.
Proof. vm_compute. reflexivity. Qed.

Lemma b64_box_west : @dec B64.arith 72.004 = 72.004%float.
Proof. vm_compute. reflexivity. Qed.

Lemma b64_box_east : @dec B64.arith 137.8347 = 137.8347%float.
Proof. vm_compute. reflexivity. Qed.

Lemma sanity_b64 : forall c : Coords B64.arith,
  sanity_in_china_p c = true
  <-> (PrimFloat.leb 0.8293 (lat c) = true
       /\ PrimFloat.leb (lat c) 55.8271 = true)
      /\ (PrimFloat.leb 72.004 (lon c) = true
          /\ PrimFloat.leb (lon c) 137.8347 = true).
Proof.
  intros c. unfold sanity_in_china_p.
  rewrite b64_box_south, b64_box_north, b64_box_west, b64_box_east.
  rewrite !andb_true_iff. reflexivity.
Qed.

Lemma london64_outside : sanity_in_china_p london64 = false.
Proof. vm_compute. reflexivity. Qed.

(** Addition of binary64 numbers is commutative. *)
Lemma SF64add_comm : forall x y : spec_float, SF64add x y = SF64add y x.
Proof.
  intros [sx | sx | | sx mx ex] [sy | sy | | sy my ey]; simpl; try reflexivity.
  - destruct sx, sy; reflexivity.
  - destruct sx, sy; reflexivity.
  - unfold SF64add, SFadd. rewrite (Z.min_comm ex ey).
    f_equal. apply Z.add_comm.
Qed.

Lemma b64_add_comm : forall x y : float, PrimFloat.add x y = PrimFloat.add y x.
Proof.
  intros x y. apply Prim2SF_inj. rewrite !add_spec. apply SF64add_comm.
Qed.

Lemma coords_add_comm_b64 : forall a b : Coords B64.arith,
  __add__ a b = __add__ b a.
Proof.
  intros a b. unfold __add__. cbv [add B64.arith].
  now rewrite (b64_add_comm (lat a)), (b64_add_comm (lon a)).
Qed.

(** Multiplication of binary64 numbers is commutative. *)
Lemma SF64mul_comm : forall x y : spec_float, SF64mul x y = SF64mul y x.
Proof.
  intros [sx | sx | | sx mx ex] [sy | sy | | sy my ey]; simpl;
    try reflexivity;
    try (now rewrite xorb_comm).
  unfold SF64mul, SFmul.
  now rewrite xorb_comm, Pos.mul_comm, Z.add_comm.
Qed.

Lemma b64_mul_comm : forall x y : float, PrimFloat.mul x y = PrimFloat.mul y x.
Proof.
  intros x y. apply Prim2SF_inj. rewrite !mul_spec. apply SF64mul_comm.
Qed.

(** Rounding to nearest, ties to even, does not look at the sign. *)
Lemma SFopp_round_aux : forall sx mx ex lx,
  SFopp (binary_round_aux prec emax sx mx ex lx)
  = binary_round_aux prec emax (negb sx) mx ex lx.
Proof.
  intros sx mx ex lx. unfold binary_round_aux.
  destruct (shr_fexp prec emax mx ex lx) as [mrs' e'].
  destruct (shr_fexp prec emax _ e' loc_Exact) as [mrs'' e''].
  destruct (shr_m mrs''); try reflexivity.
  destruct (Z.leb e'' (emax - prec)); reflexivity.
Qed.

Lemma SFopp_round : forall sx mx ex,
  SFopp (binary_round prec emax sx mx ex)
  = binary_round prec emax (negb sx) mx ex.
Proof.
  intros sx mx ex. unfold binary_round.
  destruct (shl_align mx ex _) as [mz ez]. apply SFopp_round_aux.
Qed.

Lemma SFopp_normalize : forall m e,
  binary_normalize prec emax (- m) e false
  = SFopp (binary_normalize prec emax m e false)
  \/ binary_normalize prec emax (- m) e false
     = binary_normalize prec emax m e false.
Proof.
  intros [| m | m] e; simpl.
  - right. reflexivity.
  - left. now rewrite SFopp_round.
  - left. now rewrite SFopp_round.
Qed.

(** [y - x] is the opposite of [x - y], or both are the same zero or
    not a number. *)
Lemma SF64sub_swap : forall x y : spec_float,
  SF64sub y x = SFopp (SF64sub x y) \/ SF64sub y x = SF64sub x y.
Proof.
  intros [sx | sx | | sx mx ex] [sy | sy | | sy my ey];
    try (destruct sx, sy; simpl; auto; fail);
    try (destruct sx; simpl; auto; fail);
    try (destruct sy; simpl; auto; fail);
    try (simpl; auto; fail).
  unfold SF64sub, SFsub. rewrite (Z.min_comm ey ex).
  set (ez := Z.min ex ey).
  set (X := cond_Zopp sx (Zpos (fst (shl_align mx ex ez)))).
  set (Y := cond_Zopp sy (Zpos (fst (shl_align my ey ez)))).
  replace (Y - X)%Z with (- (X - Y))%Z by lia.
  apply SFopp_normalize.
Qed.

Lemma b64_sub_swap : forall x y : float,
  PrimFloat.sub y x = PrimFloat.opp (PrimFloat.sub x y)
  \/ PrimFloat.sub y x = PrimFloat.sub x y.
Proof.
  intros x y.
  destruct (SF64sub_swap (Prim2SF x) (Prim2SF y)) as [H | H].
  - left. apply Prim2SF_inj. now rewrite opp_spec, !sub_spec.
  - right. apply Prim2SF_inj. now rewrite !sub_spec.
Qed.

Lemma SF64div_opp : forall x y : spec_float,
  SF64div (SFopp x) y = SFopp (SF64div x y).
Proof.
  intros [sx | sx | | sx mx ex] [sy | sy | | sy my ey]; simpl;
    try reflexivity;
    try (destruct sx, sy; reflexivity).
  unfold SF64div, SFdiv. simpl.
  destruct (SFdiv_core_binary prec emax (Zpos mx) ex (Zpos my) ey)
    as [[mz ez] lz].
  rewrite SFopp_round_aux. destruct sx, sy; reflexivity.
Qed.

Lemma b64_div_opp : forall x y : float,
  PrimFloat.div (PrimFloat.opp x) y = PrimFloat.opp (PrimFloat.div x y).
Proof.
  intros x y. apply Prim2SF_inj.
  now rewrite opp_spec, !div_spec, opp_spec, SF64div_opp.
Qed.

(** The haversine distance on binary64 numbers. *)

Lemma hav_even_b64 : forall (L : MathLib B64.arith) (d : float),
  B64.odd_library L ->
  hav L (math_radians L (PrimFloat.opp d)) = hav L (math_radians L d).
Proof.
  intros L d (Hrad & Hsin & Hsq). unfold hav.
  rewrite Hrad. change (@div B64.arith) with PrimFloat.div.
  change (@dec B64.arith 2) with (B64.of_lit 2).
  now rewrite b64_div_opp, Hsin, Hsq.
Qed.

Lemma hav_sub_swap_b64 : forall (L : MathLib B64.arith) (x y : float),
  B64.odd_library L ->
  hav L (math_radians L (@sub B64.arith y x))
  = hav L (math_radians L (@sub B64.arith x y)).
Proof.
  intros L x y HL. change (@sub B64.arith) with PrimFloat.sub.
  destruct (b64_sub_swap x y) as [H | H]; rewrite H.
  - now apply hav_even_b64.
  - reflexivity.
Qed.

Lemma distance_sym_b64 : forall L : MathLib B64.arith,
  B64.odd_library L ->
  forall a b : Coords B64.arith, distance L a b = distance L b a.
Proof.
  intros L HL a b. unfold distance, __sub__. cbn [lat lon].
  rewrite (@hav_sub_swap_b64 L (lat b) (lat a) HL).
  rewrite (@hav_sub_swap_b64 L (lon b) (lon a) HL).
  change (@mul B64.arith) with PrimFloat.mul.
  rewrite (b64_mul_comm (math_cos L (math_radians L (lat a)))).
  reflexivity.
Qed.

End MachineFacts.

(** ** Facts of the ideal reading *)

Section IdealFacts.

Local Open Scope R_scope.

Lemma Rleb_true : forall x y : R, Ideal.Rleb x y = true <-> x <= y.
Proof.
  intros x y. unfold Ideal.Rleb.
  destruct (Rle_dec x y); split; intros; try easy.
Qed.

Lemma Rltb_true : forall x y : R, Ideal.Rltb x y = true <-> x < y.
Proof.
  intros x y. unfold Ideal.Rltb.
  destruct (Rlt_dec x y); split; intros; try easy.
Qed.

Lemma sanity_ideal : forall c : Coords Ideal.arith,
  sanity_in_china_p c = true
  <-> 0.8293 <= lat c <= 55.8271 /\ 72.004 <= lon c <= 137.8347.
Proof.
  intros c. unfold sanity_in_china_p. rewrite !andb_true_iff.
  cbv [leb Ideal.arith]. rewrite !Rleb_true. ideal_unfold. lra.
Qed.

Lemma sanity_ideal_false : forall c : Coords Ideal.arith,
  lat c < 0.8293 \/ lon c < 72.004 -> sanity_in_china_p c = false.
Proof.
  intros c H. destruct (sanity_in_china_p c) eqn:E; [| reflexivity].
  apply sanity_ideal in E. lra.
Qed.

Lemma london_outside : sanity_in_china_p london = false.
Proof. apply sanity_ideal_false. right. simpl. lra. Qed.

Lemma origin_outside : sanity_in_china_p origin = false.
Proof. apply sanity_ideal_false. left. simpl. lra. Qed.

Lemma center_inside : sanity_in_china_p center = true.
Proof. apply sanity_ideal. simpl. lra. Qed.

(** The power function at the two exponents the source uses. *)

Lemma Rpow_2 : forall s : R, Ideal.Rpow s 2 = s ^ 2.
Proof.
  intros s. unfold Ideal.Rpow.
  destruct (Rlt_dec 0 s) as [Hs | Hs].
  - replace 2 with (INR 2) by (simpl; lra). now apply Rpower_pow.
  - replace (Int_part 2) with 2%Z.
    + destruct (Req_EM_T (IZR 2) 2) as [_ | Hn]; [| now elim Hn].
      simpl. reflexivity.
    + apply Int_part_spec. lra.
Qed.

Lemma Rpow_pos : forall x y : R, 0 < x -> Ideal.Rpow x y = Rpower x y.
Proof.
  intros x y Hx. unfold Ideal.Rpow.
  destruct (Rlt_dec 0 x); [reflexivity | contradiction].
Qed.

Lemma rad_doc : forall d : R, Ideal.Rradians d = Doc.rad d.
Proof. intros d. unfold Ideal.Rradians, Doc.rad. lra. Qed.

Lemma rad_pos : forall d : R, 0 < d -> 0 < Doc.rad d.
Proof. intros d Hd. unfold Doc.rad. pose proof PI_RGT_0. nra. Qed.

Lemma magic_pos : forall la : R, 0 < Doc.magic la.
Proof.
  intros la. unfold Doc.magic, Doc.e2.
  pose proof (SIN_bound (Doc.rad la)) as [Hl Hu].
  assert (H : (sin (Doc.rad la)) ^ 2 <= 1) by nra.
  lra.
Qed.

(** The expressions of the source and the formulas of the
    documentation denote the same real functions. *)

Lemma magic_of_doc : forall la : R,
  magic_of Ideal.math (Ideal.Rradians la) = Doc.magic la.
Proof.
  intros la. unfold magic_of. ideal_unfold.
  rewrite Rpow_2, rad_doc. reflexivity.
Qed.

Lemma dLat_doc : forall x y : R, dLat_m Ideal.math x y = Doc.dLat x y.
Proof.
  intros x y. unfold dLat_m, Doc.dLat. ideal_unfold.
  replace (x * 6 * PI) with (6 * PI * x) by lra.
  replace (x * 2 * PI) with (2 * PI * x) by lra.
  replace (y * PI) with (PI * y) by lra.
  replace (y / 3 * PI) with (PI * y / 3) by lra.
  replace (y / 12 * PI) with (PI * y / 12) by lra.
  replace (y / 30 * PI) with (PI * y / 30) by lra.
  lra.
Qed.

Lemma dLon_doc : forall x y : R, dLon_m Ideal.math x y = Doc.dLon x y.
Proof.
  intros x y. unfold dLon_m, Doc.dLon. ideal_unfold.
  replace (x * 6 * PI) with (6 * PI * x) by lra.
  replace (x * 2 * PI) with (2 * PI * x) by lra.
  replace (x * PI) with (PI * x) by lra.
  replace (x / 3 * PI) with (PI * x / 3) by lra.
  replace (x / 12 * PI) with (PI * x / 12) by lra.
  replace (x / 30 * PI) with (PI * x / 30) by lra.
  lra.
Qed.

Lemma lat_arclen_doc : forall la : R,
  lat_deg_arclen Ideal.math (Ideal.Rradians la) = Doc.latArcLen la.
Proof.
  intros la. unfold lat_deg_arclen. rewrite magic_of_doc.
  ideal_unfold. rewrite Rpow_pos by apply magic_pos.
  rewrite rad_doc. reflexivity.
Qed.

Lemma lon_arclen_doc : forall la : R,
  lon_deg_arclen Ideal.math (Ideal.Rradians la) = Doc.lonArcLen la.
Proof.
  intros la. unfold lon_deg_arclen. rewrite magic_of_doc.
  ideal_unfold. rewrite !rad_doc. reflexivity.
Qed.

Lemma wgs_gcj_ideal : forall (la lo : R) (check_china : bool),
  check_china = false \/ sanity_in_china_p (Ideal.point la lo) = true ->
  wgs_gcj Ideal.math (Ideal.point la lo) check_china
  = ret (Ideal.point (fst (Doc.wgsToGcj la lo)) (snd (Doc.wgsToGcj la lo))).
Proof.
  intros la lo b H. rewrite wgs_gcj_distorts by exact H.
  unfold Ideal.point. cbn [lat lon].
  change (math_radians Ideal.math la) with (Ideal.Rradians la).
  rewrite dLat_doc, dLon_doc, lat_arclen_doc, lon_arclen_doc.
  unfold Doc.wgsToGcj. cbn [fst snd]. ideal_unfold. reflexivity.
Qed.

Lemma gcj_bd_ideal : forall (la lo : R) (d : bool),
  gcj_bd Ideal.math (Ideal.point la lo) d
  = Ideal.point (fst (Doc.gcjToBd la lo)) (snd (Doc.gcjToBd la lo)).
Proof.
  intros la lo d. unfold gcj_bd, Doc.gcjToBd, Ideal.point.
  cbn [lat lon fst snd]. ideal_unfold. rewrite !rad_doc.
  replace (lo * lo + la * la) with (lo ^ 2 + la ^ 2) by ring.
  replace (Doc.rad la * 3000) with (3000 * Doc.rad la) by ring.
  replace (Doc.rad lo * 3000) with (3000 * Doc.rad lo) by ring.
  reflexivity.
Qed.

Lemma bd_gcj_ideal : forall (la lo : R) (d : bool),
  bd_gcj Ideal.math (Ideal.point la lo) d
  = Ideal.point (fst (Doc.bdToGcj la lo)) (snd (Doc.bdToGcj la lo)).
Proof.
  intros la lo d. unfold bd_gcj, Doc.bdToGcj, Ideal.point.
  cbn [lat lon fst snd]. ideal_unfold. rewrite !rad_doc.
  set (x := lo - 0.0065). set (y := la - 0.0060).
  replace (x * x + y * y) with (x ^ 2 + y ^ 2) by ring.
  replace (Doc.rad y * 3000) with (3000 * Doc.rad y) by ring.
  replace (Doc.rad x * 3000) with (3000 * Doc.rad x) by ring.
  reflexivity.
Qed.

(** The distortion at London does not vanish. *)

Lemma dLon_london_pos : 0 < Doc.dLon (-0.1278 - 105) (51.5074 - 35).
Proof.
  unfold Doc.dLon.
  set (x := -0.1278 - 105). set (y := 51.5074 - 35).
  pose proof (SIN_bound (6 * PI * x)). pose proof (SIN_bound (2 * PI * x)).
  pose proof (SIN_bound (PI * x)). pose proof (SIN_bound (PI * x / 3)).
  pose proof (SIN_bound (PI * x / 12)). pose proof (SIN_bound (PI * x / 30)).
  pose proof (sqrt_pos (Rabs x)).
  assert (Hx : x = -105.1278) by (unfold x; lra).
  assert (Hy : y = 16.5074) by (unfold y; lra).
  assert (Hxx : x ^ 2 = 11051.85433284) by (rewrite Hx; lra).
  assert (Hxy : 0.1 * x * y = -173.538664572) by (rewrite Hx, Hy; lra).
  rewrite Hxx, Hxy. lra.
Qed.

Lemma lonArcLen_pos : forall la : R, -90 < la < 90 -> 0 < Doc.lonArcLen la.
Proof.
  intros la Hla. unfold Doc.lonArcLen. apply rad_pos.
  apply Rdiv_lt_0_compat.
  - apply Rmult_lt_0_compat; [unfold Doc.a; lra |].
    pose proof PI_RGT_0.
    apply cos_gt_0; unfold Doc.rad; nra.
  - apply sqrt_lt_R0, magic_pos.
Qed.

Lemma london_shift_pos :
  0 < Doc.dLon (-0.1278 - 105) (51.5074 - 35) / Doc.lonArcLen 51.5074.
Proof.
  apply Rdiv_lt_0_compat.
  - exact dLon_london_pos.
  - apply lonArcLen_pos. lra.
Qed.

(** The Baidu pair at the origin. *)

Lemma gcjToBd_origin : Doc.gcjToBd 0 0 = (0.0060, 0.0065).
Proof.
  unfold Doc.gcjToBd.
  replace (0 ^ 2 + 0 ^ 2) with 0 by lra. rewrite sqrt_0.
  replace (3000 * Doc.rad 0) with 0 by (unfold Doc.rad; lra).
  rewrite sin_0. f_equal; lra.
Qed.

Lemma bdToGcj_origin_small :
  fst (Doc.bdToGcj 0 0) <= 0.02
  /\ (fst (Doc.bdToGcj 0 0) <> 0 \/ snd (Doc.bdToGcj 0 0) <> 0).
Proof.
  unfold Doc.bdToGcj. cbn [fst snd].
  set (x := 0 - 0.0065). set (y := 0 - 0.0060).
  set (s := sqrt (x ^ 2 + y ^ 2)).
  set (u := sin (3000 * Doc.rad y)).
  set (theta := Ideal.Ratan2 y x - 0.000003 * cos (3000 * Doc.rad x)).
  assert (Hs : 0.008 <= s <= 0.01).
  { unfold s. split.
    - rewrite <- (sqrt_square 0.008) by lra.
      apply sqrt_le_1_alt. unfold x, y. lra.
    - rewrite <- (sqrt_square 0.01) by lra.
      apply sqrt_le_1_alt. unfold x, y. lra. }
  pose proof (SIN_bound (3000 * Doc.rad y)) as Hu. fold u in Hu.
  pose proof (SIN_bound theta) as Hst.
  pose proof (sin2_cos2 theta) as Hsc. unfold Rsqr in Hsc.
  set (r := s - 0.00002 * u).
  assert (Hr : 0.007 <= r <= 0.011) by (unfold r; lra).
  split.
  - nra.
  - destruct (Req_dec (sin theta) 0) as [H0 | H0].
    + right. rewrite H0 in Hsc. assert (cos theta <> 0) by nra. nra.
    + left. nra.
Qed.

Lemma bd_gcj_origin_outside :
  sanity_in_china_p (bd_gcj Ideal.math origin false) = false.
Proof.
  unfold origin. rewrite bd_gcj_ideal.
  apply sanity_ideal_false. left. unfold Ideal.point. cbn [lat].
  pose proof bdToGcj_origin_small as [Hsmall _]. lra.
Qed.

(** The sentinel of [rev_bored] passes the test of the loop. *)
Lemma canary_ideal :
  ltb (PRC_EPS Ideal.arith) (math_hypot Ideal.math (dec 99) (dec 99)) = true.
Proof.
  ideal_unfold. apply Rltb_true. unfold Ideal.Rhypot.
  apply Rlt_le_trans with 1; [lra |].
  rewrite <- sqrt_1. apply sqrt_le_1_alt. lra.
Qed.

(** Vector arithmetic on real coordinates. *)

Lemma add_assoc_ideal : forall a b c : Coords Ideal.arith,
  __add__ (__add__ a b) c = __add__ a (__add__ b c).
Proof.
  intros a b c. unfold __add__. cbn [lat lon].
  cbv [add Ideal.arith]. f_equal; lra.
Qed.

Lemma add_comm_ideal : forall a b : Coords Ideal.arith,
  __add__ a b = __add__ b a.
Proof.
  intros a b. unfold __add__. cbv [add Ideal.arith]. f_equal; lra.
Qed.

Lemma abs_nonneg_ideal : forall c : Coords Ideal.arith,
  0 <= __abs__ Ideal.math c.
Proof. intros c. unfold __abs__. ideal_unfold. apply sqrt_pos. Qed.

Lemma hav_even : forall d : R,
  hav Ideal.math (Ideal.Rradians (- d)) = hav Ideal.math (Ideal.Rradians d).
Proof.
  intros d. unfold hav. ideal_unfold. rewrite !Rpow_2.
  replace (Ideal.Rradians (- d) / 2) with (- (Ideal.Rradians d / 2))
    by (unfold Ideal.Rradians; lra).
  rewrite sin_neg. lra.
Qed.

Lemma hav_sub_swap : forall x y : R,
  hav Ideal.math (math_radians Ideal.math (@sub Ideal.arith x y))
  = hav Ideal.math (math_radians Ideal.math (@sub Ideal.arith y x)).
Proof.
  intros x y. change (math_radians Ideal.math) with Ideal.Rradians.
  change (@sub Ideal.arith x y) with (x - y).
  change (@sub Ideal.arith y x) with (y - x).
  replace (x - y) with (- (y - x)) by lra. apply hav_even.
Qed.

Lemma distance_sym_ideal : forall a b : Coords Ideal.arith,
  distance Ideal.math a b = distance Ideal.math b a.
Proof.
  intros a b. unfold distance, __sub__. cbn [lat lon].
  rewrite (hav_sub_swap (lat a)), (hav_sub_swap (lon a)).
  change (@mul Ideal.arith) with Rmult.
  rewrite (Rmult_comm (math_cos Ideal.math (math_radians Ideal.math (lat a)))).
  reflexivity.
Qed.

End IdealFacts.

(** ** The forward model *)

(** C3.  In every arithmetic, for a coordinate outside the box
    [wgs_gcj] with [check_china] true returns its argument and issues
    one warning, which names that coordinate; it returns a value, it
    does not fail.  On binary64 numbers London, (51.5074, -0.1278), is
    such a coordinate, whatever the math library is. *)
Theorem wgs_gcj_outside_china :
  (forall (A : Arith) (L : MathLib A) (wgs : Coords A),
     sanity_in_china_p wgs = false ->
     wgs_gcj L wgs true = (wgs, [NonChinese wgs]))
  /\ (forall L : MathLib B64.arith,
        wgs_gcj L (B64.point 51.5074 (-0.1278)) true
        = (B64.point 51.5074 (-0.1278),
           [NonChinese (B64.point 51.5074 (-0.1278))])).
Proof.
  split.
  - intros A L wgs H. now apply wgs_gcj_passthrough.
  - intros L. apply wgs_gcj_passthrough. exact london64_outside.
Qed.

Lemma wgs_gcj_outside_china_witness :
  sanity_in_china_p london = false
  /\ wgs_gcj Ideal.math london true = (london, [NonChinese london]).
Proof.
  split.
  - exact london_outside.
  - apply (proj1 wgs_gcj_outside_china). exact london_outside.
Defined.

(** C8.  [sanity_in_china_p c] is true exactly when
    [0.8293 <= lat c <= 55.8271] and [72.004 <= lon c <= 137.8347],
    the bounds included, on binary64 numbers and on the real numbers;
    on binary64 numbers (0.8293, 72.004) and (55.8271, 137.8347) are
    inside, (0.8, 72.004) and (55.83, 137.8347) are outside. *)
Theorem sanity_in_china_p_box :
  (forall c : Coords B64.arith,
     sanity_in_china_p c = true
     <-> (PrimFloat.leb 0.8293 (lat c) = true
          /\ PrimFloat.leb (lat c) 55.8271 = true)
         /\ (PrimFloat.leb 72.004 (lon c) = true
             /\ PrimFloat.leb (lon c) 137.8347 = true))
  /\ (forall c : Coords Ideal.arith,
        sanity_in_china_p c = true
        <-> (0.8293 <= lat c <= 55.8271 /\ 72.004 <= lon c <= 137.8347)%R)
  /\ sanity_in_china_p (B64.point 0.8293 72.004) = true
  /\ sanity_in_china_p (B64.point 0.8 72.004) = false
  /\ sanity_in_china_p (B64.point 55.8271 137.8347) = true
  /\ sanity_in_china_p (B64.point 55.83 137.8347) = false.
Proof.
  split; [exact sanity_b64 |].
  split; [exact sanity_ideal |].
  repeat split; vm_compute; reflexivity.
Qed.

(** ** The one-step inverse *)


(** ** The refined conversions *)

(** C10.  In every arithmetic the flag given to [gcj_wgs_bored],
    [bd_gcj_bored] or [bd_wgs_bored] has no effect on the value or on
    the warnings.  The flag is never read: [rev_bored] gives the same
    result when [rev] is replaced by a function that ignores its flag
    and uses the default of [rev], and [fwd] by a function that ignores
    its flag and uses false. *)
Theorem precise_flag_ignored : forall (A : Arith) (L : MathLib A),
  (forall (p : Coords A) (b1 b2 : bool),
     call (gcj_wgs_bored L) p b1 = call (gcj_wgs_bored L) p b2
     /\ call (bd_gcj_bored L) p b1 = call (bd_gcj_bored L) p b2
     /\ call (bd_wgs_bored L) p b1 = call (bd_wgs_bored L) p b2)
  /\ (forall (fwd rev : conversion A) (p : Coords A) (b b' d d' : bool),
        rev_bored L fwd rev p b
        = rev_bored L
            (mkConversion (fun c _ => call fwd c false) d)
            (mkConversion (fun c _ => call rev c (default rev)) d')
            p b').
Proof.
  intros A L. split.
  - intros p b1 b2. repeat split; apply rev_bored_flag_unused.
  - intros fwd rev p b b' d d'. apply rev_bored_depends_on; reflexivity.
Qed.

(** ** Region checks of the inverses and of the compositions *)

(** C6, as stated, fails for [gcj_wgs]: at London, outside the box, the
    value with [check_china] true differs from the value with
    [check_china] false. *)
Lemma gcj_wgs_flag_matters :
  sanity_in_china_p london = false
  /\ value (gcj_wgs Ideal.math london true)
     <> value (gcj_wgs Ideal.math london false).
Proof.
  split; [exact london_outside |].
  unfold gcj_wgs. rewrite wgs_gcj_passthrough by exact london_outside.
  unfold london. rewrite wgs_gcj_ideal by (now left).
  rewrite !value_bind. unfold value, ret. cbn [fst].
  intros H. apply (f_equal (@lon Ideal.arith)) in H.
  unfold __sub__, Doc.wgsToGcj, Ideal.point in H. cbn [lat lon fst snd] in H.
  cbv [sub Ideal.arith] in H.
  pose proof london_shift_pos as Hq.
  lra.
Qed.

(** C6, amended.  In every arithmetic the three refined inverses return
    the same result for both values of the flag.  [gcj_wgs] has no test
    of its own but hands the flag to [wgs_gcj]: for a coordinate inside
    the box its result is the same for both values of the flag; for a
    coordinate [p] outside the box and the flag true, [wgs_gcj] returns
    [p] with a warning and [gcj_wgs] returns [p - (p - p)]. *)
Theorem inverse_region_check : forall (A : Arith) (L : MathLib A) (p : Coords A),
  (forall b1 b2 : bool,
     call (gcj_wgs_bored L) p b1 = call (gcj_wgs_bored L) p b2
     /\ call (bd_gcj_bored L) p b1 = call (bd_gcj_bored L) p b2
     /\ call (bd_wgs_bored L) p b1 = call (bd_wgs_bored L) p b2)
  /\ (sanity_in_china_p p = true ->
        gcj_wgs L p true = gcj_wgs L p false)
  /\ (sanity_in_china_p p = false ->
        gcj_wgs L p true
        = (__sub__ p (__sub__ p p), [NonChinese p])).
Proof.
  intros A L p. split; [| split].
  - intros b1 b2. repeat split; apply rev_bored_flag_unused.
  - intros Hin. unfold gcj_wgs.
    rewrite (wgs_gcj_distorts L p (check_china := true)) by (now right).
    rewrite (wgs_gcj_distorts L p (check_china := false)) by (now left).
    reflexivity.
  - intros Hout. unfold gcj_wgs.
    rewrite wgs_gcj_passthrough by exact Hout. reflexivity.
Qed.

Lemma inverse_region_check_witness :
  sanity_in_china_p london = false
  /\ gcj_wgs Ideal.math london true
     = (__sub__ london (__sub__ london london), [NonChinese london])
  /\ sanity_in_china_p center = true
  /\ gcj_wgs Ideal.math center true = gcj_wgs Ideal.math center false.
Proof.
  split; [exact london_outside |]. split; [| split].
  - apply (proj2 (proj2 (inverse_region_check Ideal.math london))).
    exact london_outside.
  - exact center_inside.
  - apply (proj1 (proj2 (inverse_region_check Ideal.math center))).
    exact center_inside.
Defined.

(** C7, as stated, fails: at the origin, outside the box, neither
    [wgs_bd] nor [bd_wgs] with [check_china] true returns its
    argument. *)
Lemma composed_no_passthrough :
  sanity_in_china_p origin = false
  /\ value (wgs_bd Ideal.math origin true) <> origin
  /\ value (bd_wgs Ideal.math origin true) <> origin.
Proof.
  split; [exact origin_outside |]. split.
  - unfold wgs_bd. rewrite wgs_gcj_passthrough by exact origin_outside.
    rewrite value_bind. unfold value, ret. cbn [fst]. unfold origin.
    rewrite gcj_bd_ideal, gcjToBd_origin. cbn [fst snd].
    intros H. apply (f_equal (@lat Ideal.arith)) in H.
    unfold Ideal.point in H. cbn [lat] in H. lra.
  - unfold bd_wgs, gcj_wgs.
    rewrite wgs_gcj_passthrough by exact bd_gcj_origin_outside.
    rewrite value_bind. unfold value, ret. cbn [fst].
    unfold origin. rewrite bd_gcj_ideal.
    destruct bdToGcj_origin_small as [_ Hnz].
    unfold __sub__, Ideal.point. cbn [lat lon]. cbv [sub Ideal.arith].
    intros H. pose proof (f_equal (@lat Ideal.arith) H) as H1.
    pose proof (f_equal (@lon Ideal.arith) H) as H2.
    cbn [lat lon] in H1, H2. lra.
Qed.

(** C7, amended.  In every arithmetic, for a coordinate [p] outside the
    box and the flag true: [wgs_bd] returns [gcj_bd p], with the
    warning for [p]; the forward model passes [p] through and the Baidu
    transform is applied to it all the same.  [bd_wgs] is [gcj_wgs] at
    the intermediate coordinate [g = bd_gcj p]: the region test, made
    inside [wgs_gcj] only, bears on [g], and when [g] is outside the
    box as well the result is [g - (g - g)] with the warning for [g]. *)
Theorem composed_outside_china : forall (A : Arith) (L : MathLib A) (p : Coords A),
  sanity_in_china_p p = false ->
  wgs_bd L p true = (gcj_bd L p false, [NonChinese p])
  /\ bd_wgs L p true = gcj_wgs L (bd_gcj L p false) true
  /\ (sanity_in_china_p (bd_gcj L p false) = false ->
        bd_wgs L p true
        = (__sub__ (bd_gcj L p false)
             (__sub__ (bd_gcj L p false) (bd_gcj L p false)),
           [NonChinese (bd_gcj L p false)])).
Proof.
  intros A L p Hout. split; [| split].
  - unfold wgs_bd. rewrite wgs_gcj_passthrough by exact Hout. reflexivity.
  - reflexivity.
  - intros Hg. unfold bd_wgs, gcj_wgs.
    rewrite wgs_gcj_passthrough by exact Hg. reflexivity.
Qed.

Lemma composed_outside_china_witness :
  sanity_in_china_p origin = false
  /\ sanity_in_china_p (bd_gcj Ideal.math origin false) = false
  /\ wgs_bd Ideal.math origin true
     = (gcj_bd Ideal.math origin false, [NonChinese origin])
  /\ bd_wgs Ideal.math origin true
     = (__sub__ (bd_gcj Ideal.math origin false)
          (__sub__ (bd_gcj Ideal.math origin false)
             (bd_gcj Ideal.math origin false)),
        [NonChinese (bd_gcj Ideal.math origin false)]).
Proof.
  split; [exact origin_outside |].
  split; [exact bd_gcj_origin_outside |].
  pose proof (composed_outside_china Ideal.math origin origin_outside)
    as (Hw & _ & Hb).
  split; [exact Hw | exact (Hb bd_gcj_origin_outside)].
Defined.

(** * Further properties of the program *)

Unset Implicit Arguments.

(** ** The refined conversions, in every arithmetic *)

Section RefinerFacts.

Variable A : Arith.
Variable L : MathLib A.

(** After at least one round, [diff] is the error of the forward model
    at [old], and [wgs] is [old] corrected by [diff]. *)
Lemma iterate_last : forall n fwd bad (s : locals A),
  let s' := value (iterate (S n) fwd bad s) in
  diff_ s' = __sub__ (value (call fwd (old_ s') false)) bad
  /\ wgs_ s' = __sub__ (old_ s') (diff_ s').
Proof.
  intros n fwd bad s. rewrite iterate_snoc. cbv zeta.
  rewrite value_bind. unfold loop_body. rewrite value_bind.
  unfold ret, value. cbn [fst wgs_ old_ diff_]. split; reflexivity.
Qed.

Lemma rev_bored_locals_post : forall fwd rev (target : Coords A),
  ltb (PRC_EPS A) (math_hypot L (dec 99) (dec 99)) = true ->
  let s := value (rev_bored_locals L fwd rev target) in
  (1 <= i_ s <= 10)%nat
  /\ diff_ s = __sub__ (value (call fwd (old_ s) false)) target
  /\ wgs_ s = __sub__ (old_ s) (diff_ s)
  /\ ((i_ s < 10)%nat -> ltb (PRC_EPS A) (__abs__ L (diff_ s)) = false).
Proof.
  intros fwd rev target Hc. cbv zeta.
  set (init := mkLocals (value (call1 rev target)) target
                 (mkCoords (dec 99) (dec 99)) 0).
  destruct (loop_unrolls L 10 fwd target init eq_refl)
    as (m & Hm & Hl & Hst & _).
  assert (Hs : value (rev_bored_locals L fwd rev target)
               = value (iterate m fwd target init)).
  { unfold rev_bored_locals. rewrite value_bind. fold init. now rewrite Hl. }
  rewrite Hs.
  assert (Hi : i_ (value (iterate m fwd target init)) = m)
    by (rewrite iterate_counts; reflexivity).
  destruct m as [| m].
  - simpl in Hst. unfold loop_test, __abs__ in Hst. simpl in Hst.
    rewrite Hc in Hst. discriminate Hst.
  - destruct (iterate_last m fwd target init) as [Hd Hw].
    rewrite Hi. repeat split; try lia; try assumption.
    intros Hlt. unfold loop_test in Hst. rewrite Hi in Hst.
    apply Nat.ltb_lt in Hlt. rewrite Hlt in Hst. exact Hst.
Qed.

(** The loop issues no warning when the forward function issues none
    with the flag false. *)
Lemma loop_silent : forall fuel fwd bad (s : locals A),
  (forall c, warnings (call fwd c false) = []) ->
  warnings (loop L fuel fwd bad s) = [].
Proof.
  induction fuel as [| fuel IH]; intros fwd bad s Hf.
  - reflexivity.
  - simpl. destruct (loop_test L s); [| reflexivity].
    rewrite warnings_bind. rewrite (IH _ _ _ Hf), app_nil_r.
    unfold loop_body. rewrite warnings_bind, Hf. reflexivity.
Qed.

Lemma rev_bored_warnings : forall fwd rev (bad : Coords A) (b : bool),
  (forall c, warnings (call fwd c false) = []) ->
  warnings (rev_bored L fwd rev bad b) = warnings (call1 rev bad).
Proof.
  intros fwd rev bad b Hf. unfold rev_bored, rev_bored_locals.
  rewrite !warnings_bind. rewrite (loop_silent _ _ _ _ Hf).
  unfold ret, warnings. simpl. now rewrite !app_nil_r.
Qed.

Lemma wgs_gcj_inside_flag : forall (p : Coords A) (b : bool),
  sanity_in_china_p p = true ->
  wgs_gcj L p b = wgs_gcj L p false.
Proof.
  intros p b H. rewrite (@wgs_gcj_distorts A L p b) by (now right).
  rewrite (@wgs_gcj_distorts A L p false) by (now left). reflexivity.
Qed.

Lemma gcj_wgs_warnings : forall p : Coords A,
  warnings (gcj_wgs L p true)
  = if sanity_in_china_p p then [] else [NonChinese p].
Proof.
  intros p. unfold gcj_wgs. rewrite warnings_bind.
  destruct (sanity_in_china_p p) eqn:E.
  - rewrite wgs_gcj_inside_flag by exact E. reflexivity.
  - rewrite wgs_gcj_passthrough by exact E. reflexivity.
Qed.

Lemma one_round : forall fwd rev (target : Coords A),
  ltb (PRC_EPS A) (math_hypot L (dec 99) (dec 99)) = true ->
  let w0 := value (call1 rev target) in
  let d := __sub__ (value (call fwd w0 false)) target in
  ltb (PRC_EPS A) (__abs__ L d) = false ->
  value (rev_bored_locals L fwd rev target) = mkLocals (__sub__ w0 d) w0 d 1.
Proof.
  intros fwd rev target Hc w0 d Hd.
  unfold rev_bored_locals. rewrite value_bind. fold w0.
  change (loop L 10) with (loop L (S (S 8))). cbn [loop].
  assert (H0 : loop_test L
                 (mkLocals w0 target (mkCoords (dec 99) (dec 99)) 0) = true).
  { unfold loop_test, __abs__. cbn [i_ diff_ lat lon]. now rewrite Hc. }
  rewrite H0. rewrite value_bind.
  assert (H1 : value (loop_body fwd target
                        (mkLocals w0 target (mkCoords (dec 99) (dec 99)) 0))
               = mkLocals (__sub__ w0 d) w0 d 1) by reflexivity.
  rewrite H1.
  assert (H2 : loop_test L (mkLocals (__sub__ w0 d) w0 d 1) = false).
  { unfold loop_test. cbn [i_ diff_]. now rewrite Hd. }
  rewrite H2. reflexivity.
Qed.

End RefinerFacts.

(** X1.  In every arithmetic in which the magnitude of the sentinel
    exceeds [PRC_EPS], the estimate that a conversion built by [_bored]
    returns is [old - (fwd(old, False) - target)] for the estimate [old]
    of the round before; when fewer than ten rounds were executed, the
    magnitude of the error [fwd(old, False) - target] does not exceed
    [PRC_EPS].  The bound is on the error at [old], not at the estimate
    returned. *)
Theorem refiner_postcondition :
  forall (A : Arith) (L : MathLib A) (fwd rev : conversion A)
         (target : Coords A) (check_china : bool),
  ltb (PRC_EPS A) (math_hypot L (dec 99) (dec 99)) = true ->
  exists (old : Coords A) (n : nat),
    (1 <= n <= 10)%nat
    /\ i_ (value (rev_bored_locals L fwd rev target)) = n
    /\ value (call (_bored L fwd rev) target check_china)
       = __sub__ old (__sub__ (value (call fwd old false)) target)
    /\ ((n < 10)%nat ->
          ltb (PRC_EPS A)
              (__abs__ L (__sub__ (value (call fwd old false)) target))
          = false).
Proof.
  intros A L fwd rev target check_china Hc.
  destruct (rev_bored_locals_post A L fwd rev target Hc)
    as (Hn & Hd & Hw & Hstop).
  exists (old_ (value (rev_bored_locals L fwd rev target))).
  exists (i_ (value (rev_bored_locals L fwd rev target))).
  split; [exact Hn |]. split; [reflexivity |]. split.
  - cbn [call _bored]. unfold rev_bored. rewrite value_bind.
    unfold ret, value at 1. cbn [fst]. rewrite Hw, Hd. reflexivity.
  - rewrite <- Hd. exact Hstop.
Qed.

Lemma refiner_postcondition_witness :
  ltb (PRC_EPS Ideal.arith) (math_hypot Ideal.math (dec 99) (dec 99)) = true
  /\ exists (old : Coords Ideal.arith) (n : nat),
       (1 <= n <= 10)%nat
       /\ i_ (value (rev_bored_locals Ideal.math (wgs_gcj_fn Ideal.math)
                       (gcj_wgs_fn Ideal.math) london)) = n
       /\ value (call (_bored Ideal.math (wgs_gcj_fn Ideal.math)
                         (gcj_wgs_fn Ideal.math)) london true)
          = __sub__ old
              (__sub__ (value (call (wgs_gcj_fn Ideal.math) old false)) london)
       /\ ((n < 10)%nat ->
             ltb (PRC_EPS Ideal.arith)
                 (__abs__ Ideal.math
                    (__sub__ (value (call (wgs_gcj_fn Ideal.math) old false))
                       london))
             = false).
Proof.
  split.
  - exact canary_ideal.
  - apply refiner_postcondition. exact canary_ideal.
Defined.

(** X2.  In every arithmetic the loop of a refined conversion issues
    no warning: the warnings of [gcj_wgs_bored], [bd_gcj_bored] and
    [bd_wgs_bored] are those of their first estimate, whatever flag the
    caller gives.  [gcj_wgs_bored] warns exactly when its argument is
    outside the box, [bd_gcj_bored] never warns, and [bd_wgs_bored]
    warns exactly when [bd_gcj] of its argument is outside the box, and
    names that coordinate. *)
Theorem precise_warnings :
  forall (A : Arith) (L : MathLib A) (p : Coords A) (check_china : bool),
  warnings (call (gcj_wgs_bored L) p check_china)
  = (if sanity_in_china_p p then [] else [NonChinese p])
  /\ warnings (call (bd_gcj_bored L) p check_china) = []
  /\ warnings (call (bd_wgs_bored L) p check_china)
     = (if sanity_in_china_p (bd_gcj L p false) then []
        else [NonChinese (bd_gcj L p false)]).
Proof.
  intros A L p b. split; [| split].
  - cbn [call gcj_wgs_bored _bored].
    rewrite rev_bored_warnings by (intros c; reflexivity).
    apply gcj_wgs_warnings.
  - cbn [call bd_gcj_bored _bored].
    rewrite rev_bored_warnings by (intros c; reflexivity). reflexivity.
  - cbn [call bd_wgs_bored _bored].
    rewrite rev_bored_warnings by (intros c; reflexivity).
    apply gcj_wgs_warnings.
Qed.

(** X3.  In every arithmetic in which the magnitude of the sentinel
    exceeds [PRC_EPS]: when the error [d = fwd(rev(target), False) -
    target] of the first estimate does not exceed [PRC_EPS] in
    magnitude, a conversion built by [_bored] executes one round and
    returns [rev(target) - d]. *)
Theorem refiner_single_round :
  forall (A : Arith) (L : MathLib A) (fwd rev : conversion A)
         (target : Coords A) (check_china : bool),
  ltb (PRC_EPS A) (math_hypot L (dec 99) (dec 99)) = true ->
  ltb (PRC_EPS A)
      (__abs__ L
         (__sub__ (value (call fwd (value (call rev target (default rev))) false))
            target))
  = false ->
  value (call (_bored L fwd rev) target check_china)
  = __sub__ (value (call rev target (default rev)))
      (__sub__ (value (call fwd (value (call rev target (default rev))) false))
         target)
  /\ i_ (value (rev_bored_locals L fwd rev target)) = 1%nat.
Proof.
  intros A L fwd rev target check_china Hc Hd.
  pose proof (one_round A L fwd rev target Hc Hd) as H.
  split.
  - cbn [call _bored]. unfold rev_bored. rewrite value_bind, H. reflexivity.
  - rewrite H. reflexivity.
Qed.

(** ** Coordinates that are not finite, on binary64 numbers *)

Section NonFinite.

Lemma SFcompare_refl_finite : forall s m e,
  SFcompare (S754_finite s m e) (S754_finite s m e) = Some Eq.
Proof.
  intros s m e. simpl. rewrite Z.compare_refl.
  change (PosDef.Pos.compare_cont Eq m m) with (Pos.compare_cont Eq m m).
  rewrite Pcompare_refl. destruct s; reflexivity.
Qed.

(** A number between two finite numbers is finite. *)
Lemma b64_between_finite : forall (lo hi x : float) slo mlo elo shi mhi ehi,
  Prim2SF lo = S754_finite slo mlo elo ->
  Prim2SF hi = S754_finite shi mhi ehi ->
  PrimFloat.leb lo x = true -> PrimFloat.leb x hi = true ->
  PrimFloat.is_finite x = true.
Proof.
  intros lo hi x slo mlo elo shi mhi ehi Hlo Hhi H1 H2.
  rewrite leb_spec, Hlo in H1. rewrite leb_spec, Hhi in H2.
  unfold is_finite, is_nan, is_infinity.
  rewrite !eqb_spec, abs_spec.
  change (Prim2SF infinity) with (S754_infinity false).
  destruct (Prim2SF x) as [s | s | | s m e].
  - reflexivity.
  - destruct s; [destruct slo | destruct shi]; discriminate.
  - discriminate.
  - unfold SFeqb. rewrite SFcompare_refl_finite. reflexivity.
Qed.

Lemma sanity_b64_finite : forall c : Coords B64.arith,
  sanity_in_china_p c = true ->
  PrimFloat.is_finite (lat c) = true /\ PrimFloat.is_finite (lon c) = true.
Proof.
  intros c H. apply sanity_b64 in H. destruct H as [[H1 H2] [H3 H4]]. split.
  - eapply b64_between_finite with (lo := 0.8293%float) (hi := 55.8271%float);
      try eassumption; vm_compute; reflexivity.
  - eapply b64_between_finite with (lo := 72.004%float) (hi := 137.8347%float);
      try eassumption; vm_compute; reflexivity.
Qed.

Lemma non_finite_outside : forall c : Coords B64.arith,
  PrimFloat.is_finite (lat c) && PrimFloat.is_finite (lon c) = false ->
  sanity_in_china_p c = false.
Proof.
  intros c H. destruct (sanity_in_china_p c) eqn:E; [| reflexivity].
  apply sanity_b64_finite in E. destruct E as [E1 E2].
  rewrite E1, E2 in H. discriminate H.
Qed.

Lemma is_finite_SF : forall x : float,
  PrimFloat.is_finite x = true ->
  (exists s, Prim2SF x = S754_zero s)
  \/ (exists s m e, Prim2SF x = S754_finite s m e).
Proof.
  intros x H. unfold is_finite, is_nan, is_infinity in H.
  rewrite !eqb_spec, abs_spec in H.
  change (Prim2SF infinity) with (S754_infinity false) in H.
  destruct (Prim2SF x) as [s | s | | s m e].
  - left. now exists s.
  - destruct s; discriminate H.
  - discriminate H.
  - right. now exists s, m, e.
Qed.

Lemma is_infinity_SF : forall x : float,
  PrimFloat.is_infinity x = true -> exists s, Prim2SF x = S754_infinity s.
Proof.
  intros x H. unfold is_infinity in H. rewrite eqb_spec, abs_spec in H.
  change (Prim2SF infinity) with (S754_infinity false) in H.
  destruct (Prim2SF x) as [s | s | | s m e]; try discriminate H.
  now exists s.
Qed.

Lemma is_infinity_not_finite : forall x : float,
  PrimFloat.is_infinity x = true -> PrimFloat.is_finite x = false.
Proof.
  intros x H. unfold is_finite. rewrite H, orb_true_r. reflexivity.
Qed.

Lemma SF64sub_self_finite : forall s m e,
  SF64sub (S754_finite s m e) (S754_finite s m e) = S754_zero false.
Proof.
  intros s m e. unfold SF64sub, SFsub.
  rewrite Z.min_id, Z.sub_diag. reflexivity.
Qed.

(** [x - (x - x)] is [x] for a finite [x], and not a number for an
    infinite one. *)
Lemma b64_sub_sub_self : forall x : float,
  PrimFloat.is_finite x = true ->
  PrimFloat.sub x (PrimFloat.sub x x) = x.
Proof.
  intros x H. apply Prim2SF_inj. rewrite !sub_spec.
  destruct (is_finite_SF x H) as [[s E] | (s & m & e & E)]; rewrite E.
  - destruct s; reflexivity.
  - rewrite SF64sub_self_finite. reflexivity.
Qed.

Lemma b64_sub_sub_self_infinite : forall x : float,
  PrimFloat.is_infinity x = true ->
  PrimFloat.is_nan (PrimFloat.sub x (PrimFloat.sub x x)) = true.
Proof.
  intros x H. unfold is_nan. rewrite eqb_spec, !sub_spec.
  destruct (is_infinity_SF x H) as [s E]. rewrite E.
  destruct s; reflexivity.
Qed.

End NonFinite.

(** X4.  On binary64 numbers a coordinate with a component that is not
    finite (an infinity or not a number) is outside the box, so that
    [wgs_gcj] with [check_china] true returns it as it is, with one
    warning, whatever the math library is. *)
Theorem non_finite_passthrough : forall c : Coords B64.arith,
  PrimFloat.is_finite (lat c) && PrimFloat.is_finite (lon c) = false ->
  sanity_in_china_p c = false
  /\ (forall L : MathLib B64.arith,
        wgs_gcj L c true = (c, [NonChinese c])).
Proof.
  intros c H. pose proof (non_finite_outside c H) as Hout.
  split; [exact Hout |].
  intros L. now apply wgs_gcj_passthrough.
Qed.

Lemma non_finite_passthrough_witness :
  PrimFloat.is_finite (lat (B64.point PrimFloat.nan 105))
  && PrimFloat.is_finite (lon (B64.point PrimFloat.nan 105)) = false
  /\ sanity_in_china_p (B64.point PrimFloat.nan 105) = false
  /\ (forall L : MathLib B64.arith,
        wgs_gcj L (B64.point PrimFloat.nan 105) true
        = (B64.point PrimFloat.nan 105,
           [NonChinese (B64.point PrimFloat.nan 105)])).
Proof.
  split.
  - vm_compute. reflexivity.
  - apply non_finite_passthrough. vm_compute. reflexivity.
Defined.

(** X5.  On binary64 numbers, for a coordinate [p] with finite
    components outside the box, [gcj_wgs] with [check_china] true
    returns exactly [p], with one warning, whatever the math library
    is: the subtraction [p - (p - p)] loses nothing. *)
Theorem gcj_wgs_passthrough_exact : forall p : Coords B64.arith,
  PrimFloat.is_finite (lat p) = true ->
  PrimFloat.is_finite (lon p) = true ->
  sanity_in_china_p p = false ->
  forall L : MathLib B64.arith, gcj_wgs L p true = (p, [NonChinese p]).
Proof.
  intros p Hla Hlo Hout L. unfold gcj_wgs.
  rewrite wgs_gcj_passthrough by exact Hout.
  unfold bind, ret. cbn [fst snd app]. f_equal.
  unfold __sub__. cbn [lat lon]. change (@sub B64.arith) with PrimFloat.sub.
  rewrite (b64_sub_sub_self _ Hla), (b64_sub_sub_self _ Hlo).
  destruct p; reflexivity.
Qed.

Lemma gcj_wgs_passthrough_exact_witness :
  PrimFloat.is_finite (lat london64) = true
  /\ PrimFloat.is_finite (lon london64) = true
  /\ sanity_in_china_p london64 = false
  /\ (forall L : MathLib B64.arith,
        gcj_wgs L london64 true = (london64, [NonChinese london64])).
Proof.
  split; [vm_compute; reflexivity |].
  split; [vm_compute; reflexivity |].
  split; [exact london64_outside |].
  apply gcj_wgs_passthrough_exact.
  - vm_compute. reflexivity.
  - vm_compute. reflexivity.
  - exact london64_outside.
Defined.

(** X6.  On binary64 numbers [gcj_wgs] with [check_china] true does not
    return an infinite latitude or longitude as it is: the component of
    the result is not a number, because [x - (x - x)] is not a number
    for an infinite [x]. *)
Theorem gcj_wgs_infinite_nan : forall p : Coords B64.arith,
  (PrimFloat.is_infinity (lat p) = true ->
   forall L : MathLib B64.arith,
     PrimFloat.is_nan (lat (value (gcj_wgs L p true))) = true)
  /\ (PrimFloat.is_infinity (lon p) = true ->
      forall L : MathLib B64.arith,
        PrimFloat.is_nan (lon (value (gcj_wgs L p true))) = true).
Proof.
  intros p. split; intros H L.
  - assert (Hout : sanity_in_china_p p = false).
    { apply non_finite_outside.
      now rewrite (is_infinity_not_finite _ H). }
    unfold gcj_wgs. rewrite wgs_gcj_passthrough by exact Hout.
    rewrite value_bind. unfold ret, value. cbn [fst].
    unfold __sub__. cbn [lat]. change (@sub B64.arith) with PrimFloat.sub.
    now apply b64_sub_sub_self_infinite.
  - assert (Hout : sanity_in_china_p p = false).
    { apply non_finite_outside.
      now rewrite (is_infinity_not_finite _ H), andb_false_r. }
    unfold gcj_wgs. rewrite wgs_gcj_passthrough by exact Hout.
    rewrite value_bind. unfold ret, value. cbn [fst].
    unfold __sub__. cbn [lon]. change (@sub B64.arith) with PrimFloat.sub.
    now apply b64_sub_sub_self_infinite.
Qed.

Lemma gcj_wgs_infinite_nan_witness :
  PrimFloat.is_infinity (lat (B64.point PrimFloat.infinity 105)) = true
  /\ (forall L : MathLib B64.arith,
        PrimFloat.is_nan
          (lat (value (gcj_wgs L (B64.point PrimFloat.infinity 105) true)))
        = true).
Proof.
  split.
  - vm_compute. reflexivity.
  - apply (proj1 (gcj_wgs_infinite_nan (B64.point PrimFloat.infinity 105))).
    vm_compute. reflexivity.
Defined.

(** ** Inside the box, in every arithmetic *)

(** X7.  In every arithmetic, for a coordinate inside the box the flag
    has no effect on [wgs_gcj], [gcj_wgs] and [wgs_bd], and none of
    them issues a warning. *)
Theorem inside_flag_irrelevant :
  forall (A : Arith) (L : MathLib A) (p : Coords A),
  sanity_in_china_p p = true ->
  forall check_china : bool,
    wgs_gcj L p check_china = wgs_gcj L p false
    /\ gcj_wgs L p check_china = gcj_wgs L p false
    /\ wgs_bd L p check_china = wgs_bd L p false
    /\ warnings (wgs_gcj L p check_china) = []
    /\ warnings (gcj_wgs L p check_china) = []
    /\ warnings (wgs_bd L p check_china) = [].
Proof.
  intros A L p Hin b.
  pose proof (wgs_gcj_inside_flag A L p b Hin) as H.
  unfold gcj_wgs, wgs_bd. rewrite H. repeat split; reflexivity.
Qed.

Lemma inside_flag_irrelevant_witness :
  sanity_in_china_p center = true
  /\ (forall check_china : bool,
        wgs_gcj Ideal.math center check_china = wgs_gcj Ideal.math center false
        /\ gcj_wgs Ideal.math center check_china
           = gcj_wgs Ideal.math center false
        /\ wgs_bd Ideal.math center check_china = wgs_bd Ideal.math center false
        /\ warnings (wgs_gcj Ideal.math center check_china) = []
        /\ warnings (gcj_wgs Ideal.math center check_china) = []
        /\ warnings (wgs_bd Ideal.math center check_china) = []).
Proof.
  split.
  - exact center_inside.
  - apply inside_flag_irrelevant. exact center_inside.
Defined.

(** ** Further facts of the ideal reading *)

Section IdealBounds.

Local Open Scope R_scope.

Lemma Rabs_le_both : forall x a : R, Rabs x <= a -> - a <= x <= a.
Proof. intros x a H. unfold Rabs in H. destruct (Rcase_abs x); lra. Qed.

Lemma PI_upper : PI <= 52 / 15.
Proof.
  pose proof (PI_ineq 1) as [_ H].
  unfold sum_f_R0, tg_alt, PI_tg in H. simpl in H. lra.
Qed.

Lemma PI_lower : 3 < PI.
Proof. pose proof PI2_3_2. lra. Qed.

Lemma cos_lower : forall a : R, -2 <= a <= 2 -> 1 - a * a / 2 <= cos a.
Proof.
  intros a Ha. destruct (pre_cos_bound a 0) as [H _]; try lra.
  unfold cos_approx, cos_term in H. simpl in H. lra.
Qed.

Lemma one_minus_cos : forall e : R,
  -1 <= e <= 1 -> 0 <= 1 - cos e <= e * e / 2.
Proof.
  intros e He. pose proof (cos_lower e ltac:(lra)).
  pose proof (COS_bound e). lra.
Qed.

(** The haversine distance. *)

Lemma asin_nonneg : forall y : R, 0 <= y -> 0 <= asin y.
Proof.
  intros y Hy. destruct (Rle_dec y 1) as [H1 | H1].
  - destruct (Rle_dec 0 (asin y)) as [H | H]; [exact H | exfalso].
    apply Rnot_le_lt in H.
    pose proof (asin_bound y) as [Hl _].
    pose proof PI_RGT_0.
    assert (Hs : 0 < sin (- asin y)) by (apply sin_gt_0; lra).
    rewrite sin_neg, sin_asin in Hs by lra. lra.
  - unfold asin.
    destruct (Rle_dec y (-1)); [lra |].
    destruct (Rle_dec 1 y); [| lra].
    pose proof PI_RGT_0. lra.
Qed.

Lemma asin_abs_sin : forall u : R,
  - (PI / 2) <= u <= PI / 2 -> asin (Rabs (sin u)) = Rabs u.
Proof.
  intros u Hu. pose proof PI_RGT_0.
  destruct (Rle_dec 0 u) as [H0 | H0].
  - rewrite (Rabs_pos_eq u) by exact H0.
    rewrite Rabs_pos_eq by (apply sin_ge_0; lra).
    apply asin_sin. lra.
  - apply Rnot_le_lt in H0.
    rewrite (Rabs_left u) by exact H0.
    rewrite <- (Rabs_Ropp (sin u)), <- sin_neg.
    rewrite Rabs_pos_eq by (apply sin_ge_0; lra).
    apply asin_sin. lra.
Qed.

Lemma hav_zero : hav Ideal.math (Ideal.Rradians 0) = 0.
Proof.
  unfold hav. ideal_unfold. rewrite Rpow_2.
  replace (Ideal.Rradians 0 / 2) with 0 by (unfold Ideal.Rradians; lra).
  rewrite sin_0. lra.
Qed.

(** Points given by a radius and an angle. *)

Lemma Rhypot_polar : forall r t : R,
  Ideal.Rhypot (r * sin t) (r * cos t) = Rabs r.
Proof.
  intros r t. unfold Ideal.Rhypot.
  replace (r * sin t * (r * sin t) + r * cos t * (r * cos t))
    with (Rsqr r * ((sin t)² + (cos t)²)) by (unfold Rsqr; ring).
  rewrite sin2_cos2, Rmult_1_r. apply sqrt_Rsqr_abs.
Qed.

Lemma radius_perturbed : forall S d : R,
  0 <= S -> Rabs d <= 0.00002 -> Rabs (Rabs (S + d) - S) <= 0.00002.
Proof.
  intros S d HS Hd.
  pose proof (Rabs_triang_inv2 (S + d) S) as H.
  rewrite (Rabs_pos_eq S) in H by exact HS.
  replace (S + d - S) with d in H by lra. lra.
Qed.

Lemma hyp_scaled : forall x y : R,
  x <> 0 -> sqrt (x * x + y * y) = Rabs x * sqrt (1 + (y / x)²).
Proof.
  intros x y Hx.
  replace (x * x + y * y) with (Rsqr x * (1 + (y / x)²))
    by (unfold Rsqr; field; exact Hx).
  rewrite sqrt_mult_alt by apply Rle_0_sqr.
  now rewrite sqrt_Rsqr_abs.
Qed.

Lemma sqrt_1_sqr_pos : forall t : R, 0 < sqrt (1 + t²).
Proof. intros t. apply sqrt_lt_R0. pose proof (Rle_0_sqr t). lra. Qed.

(** [atan2 y x] is the angle of the point [(x, y)]. *)
Lemma polar_atan2 : forall x y : R,
  x <> 0 \/ y <> 0 ->
  x = sqrt (x * x + y * y) * cos (Ideal.Ratan2 y x)
  /\ y = sqrt (x * x + y * y) * sin (Ideal.Ratan2 y x).
Proof.
  intros x y Hxy. unfold Ideal.Ratan2.
  pose proof (sqrt_1_sqr_pos (y / x)) as HT.
  destruct (Rlt_dec 0 x) as [Hx | Hx].
  - rewrite hyp_scaled by lra. rewrite Rabs_pos_eq by lra.
    rewrite cos_atan, sin_atan. split; field; lra.
  - destruct (Rlt_dec x 0) as [Hx' | Hx'].
    + rewrite hyp_scaled by lra. rewrite Rabs_left by lra.
      destruct (Rle_dec 0 y) as [Hy | Hy].
      * rewrite neg_cos, neg_sin, cos_atan, sin_atan. split; field; lra.
      * rewrite cos_minus, sin_minus, cos_PI, sin_PI, cos_atan, sin_atan.
        split; field; lra.
    + assert (x = 0) by lra. subst x.
      replace (0 * 0 + y * y) with (Rsqr y) by (unfold Rsqr; ring).
      rewrite sqrt_Rsqr_abs.
      destruct (Rlt_dec 0 y) as [Hy | Hy].
      * rewrite cos_PI2, sin_PI2, Rabs_pos_eq by lra. lra.
      * destruct (Rlt_dec y 0) as [Hy' | Hy']; [| lra].
        rewrite cos_neg, sin_neg, cos_PI2, sin_PI2, Rabs_left by lra. lra.
Qed.

(** The square of the distance between two points given by radius and
    angle. *)
Lemma polar_gap : forall r1 r2 a b : R,
  (r1 * sin a - r2 * sin b) * (r1 * sin a - r2 * sin b)
  + (r1 * cos a - r2 * cos b) * (r1 * cos a - r2 * cos b)
  = (r1 - r2) * (r1 - r2) + 2 * r1 * r2 * (1 - cos (a - b)).
Proof.
  intros r1 r2 a b. rewrite cos_minus.
  pose proof (sin2_cos2 a) as Ha. pose proof (sin2_cos2 b) as Hb.
  unfold Rsqr in Ha, Hb.
  replace ((r1 * sin a - r2 * sin b) * (r1 * sin a - r2 * sin b)
           + (r1 * cos a - r2 * cos b) * (r1 * cos a - r2 * cos b))
    with (r1 * r1 * (sin a * sin a + cos a * cos a)
          + r2 * r2 * (sin b * sin b + cos b * cos b)
          - 2 * r1 * r2 * (cos a * cos b + sin a * sin b)) by ring.
  rewrite Ha, Hb. ring.
Qed.

(** Bounds on the distortion and on the length of a degree. *)

Lemma Rpower_32_lower : forall m : R, 0 < m <= 1 -> m * m <= Rpower m 1.5.
Proof.
  intros m Hm.
  replace 1.5 with (1 + / 2) by lra.
  rewrite Rpower_plus, Rpower_1, Rpower_sqrt by lra.
  assert (Hs : m <= sqrt m).
  { rewrite <- (sqrt_square m) at 1 by lra. apply sqrt_le_1_alt. nra. }
  nra.
Qed.

Lemma magic_range : forall la : R, 0.9933 <= Doc.magic la <= 1.
Proof.
  intros la. unfold Doc.magic, Doc.e2.
  pose proof (SIN_bound (Doc.rad la)) as [Hl Hu].
  assert (H : 0 <= (sin (Doc.rad la)) ^ 2 <= 1) by nra.
  lra.
Qed.

Lemma latArcLen_lower : forall la : R, 104000 <= Doc.latArcLen la.
Proof.
  intros la. unfold Doc.latArcLen, Doc.rad, Doc.a, Doc.e2.
  pose proof (magic_range la) as Hm.
  pose proof (Rpower_32_lower (Doc.magic la) ltac:(lra)) as Hp.
  pose proof PI_lower.
  assert (0.98 <= Rpower (Doc.magic la) 1.5) by nra.
  nra.
Qed.

Lemma lonArcLen_lower : forall la : R,
  0 <= la <= 55.8271 -> 43000 <= Doc.lonArcLen la.
Proof.
  intros la Hla. unfold Doc.lonArcLen, Doc.a.
  pose proof (magic_range la) as Hm.
  pose proof PI_lower. pose proof PI_upper.
  assert (Hr : 0 <= Doc.rad la <= 1.08) by (unfold Doc.rad; nra).
  pose proof (cos_lower (Doc.rad la) ltac:(lra)) as Hc.
  assert (Hc' : 0.41 <= cos (Doc.rad la)) by nra.
  assert (Hs : 0 < sqrt (Doc.magic la) <= 1).
  { split; [apply sqrt_lt_R0; lra |].
    rewrite <- sqrt_1. apply sqrt_le_1_alt. lra. }
  assert (Hq : 6378245 * 0.41
               <= 6378245 * cos (Doc.rad la) / sqrt (Doc.magic la)).
  { apply Rle_trans with (6378245 * cos (Doc.rad la)); [nra |].
    apply Rle_trans with (6378245 * cos (Doc.rad la) / 1); [lra |].
    unfold Rdiv. apply Rmult_le_compat_l; [nra |].
    apply Rinv_le_contravar; lra. }
  unfold Doc.rad at 1. nra.
Qed.

Lemma sqrt_abs_small : forall x : R,
  -33 <= x <= 33 -> 0 <= sqrt (Rabs x) <= 6.
Proof.
  intros x Hx. split; [apply sqrt_pos |].
  rewrite <- (sqrt_square 6) by lra. apply sqrt_le_1_alt.
  unfold Rabs. destruct (Rcase_abs x); lra.
Qed.

Lemma dLat_bound : forall x y : R,
  -33 <= x <= 33 -> -34.2 <= y <= 20.9 -> Rabs (Doc.dLat x y) <= 770.
Proof.
  intros x y Hx Hy. unfold Doc.dLat.
  pose proof (SIN_bound (6 * PI * x)). pose proof (SIN_bound (2 * PI * x)).
  pose proof (SIN_bound (PI * y)). pose proof (SIN_bound (PI * y / 3)).
  pose proof (SIN_bound (PI * y / 12)). pose proof (SIN_bound (PI * y / 30)).
  pose proof (sqrt_abs_small x Hx).
  assert (Hxy : -1128.6 <= x * y <= 1128.6) by nra.
  assert (Hyy : 0 <= y ^ 2 <= 1169.64) by nra.
  apply Rabs_le. lra.
Qed.

Lemma dLon_bound : forall x y : R,
  -33 <= x <= 33 -> -34.2 <= y <= 20.9 -> Rabs (Doc.dLon x y) <= 965.
Proof.
  intros x y Hx Hy. unfold Doc.dLon.
  pose proof (SIN_bound (6 * PI * x)). pose proof (SIN_bound (2 * PI * x)).
  pose proof (SIN_bound (PI * x)). pose proof (SIN_bound (PI * x / 3)).
  pose proof (SIN_bound (PI * x / 12)). pose proof (SIN_bound (PI * x / 30)).
  pose proof (sqrt_abs_small x Hx).
  assert (Hxy : -1128.6 <= x * y <= 1128.6) by nra.
  assert (Hxx : 0 <= x ^ 2 <= 1089) by nra.
  apply Rabs_le. lra.
Qed.

Lemma Rabs_div_le : forall n d N D : R,
  Rabs n <= N -> 0 < D <= d -> Rabs (n / d) <= N / D.
Proof.
  intros n d N D Hn Hd.
  assert (0 <= N) by (pose proof (Rabs_pos n); lra).
  unfold Rdiv. rewrite Rabs_mult, (Rabs_pos_eq (/ d)).
  - apply Rmult_le_compat; try apply Rabs_pos; try lra.
    + left. apply Rinv_0_lt_compat. lra.
    + apply Rinv_le_contravar; lra.
  - left. apply Rinv_0_lt_compat. lra.
Qed.

(** The round trip through the Baidu pair, on the formulas. *)
Lemma baidu_round_trip_raw : forall la lo : R,
  72 <= sqrt (lo * lo + la * la) <= 150 ->
  let g := Doc.gcjToBd la lo in
  let b := Doc.bdToGcj (fst g) (snd g) in
  (fst b - la) * (fst b - la) + (snd b - lo) * (snd b - lo) <= 0.001 * 0.001.
Proof.
  intros la lo HR. unfold Doc.gcjToBd, Doc.bdToGcj. cbv zeta. cbn [fst snd].
  replace (lo ^ 2 + la ^ 2) with (lo * lo + la * la) by ring.
  set (rho := sqrt (lo * lo + la * la)) in *.
  set (t0 := Ideal.Ratan2 la lo).
  set (s1 := sin (3000 * Doc.rad la)).
  set (c1 := cos (3000 * Doc.rad lo)).
  set (r1 := rho + 0.00002 * s1).
  set (t1 := t0 + 0.000003 * c1).
  replace (r1 * sin t1 + 0.0060 - 0.0060) with (r1 * sin t1) by lra.
  replace (r1 * cos t1 + 0.0065 - 0.0065) with (r1 * cos t1) by lra.
  set (x := r1 * cos t1). set (y := r1 * sin t1).
  replace (x ^ 2 + y ^ 2) with (x * x + y * y) by ring.
  pose proof (SIN_bound (3000 * Doc.rad la)) as Hs1. fold s1 in Hs1.
  pose proof (COS_bound (3000 * Doc.rad lo)) as Hc1. fold c1 in Hc1.
  assert (Hr1 : 71 <= r1 <= 151) by (unfold r1; lra).
  assert (HS2 : sqrt (x * x + y * y) = r1).
  { unfold x, y.
    replace (r1 * cos t1 * (r1 * cos t1) + r1 * sin t1 * (r1 * sin t1))
      with (r1 * sin t1 * (r1 * sin t1) + r1 * cos t1 * (r1 * cos t1))
      by ring.
    fold (Ideal.Rhypot (r1 * sin t1) (r1 * cos t1)).
    rewrite Rhypot_polar. apply Rabs_pos_eq. lra. }
  assert (Hp0 : lo <> 0 \/ la <> 0).
  { destruct (Req_dec lo 0) as [E | E]; [| now left]. right. intros E'.
    unfold rho in HR. rewrite E, E' in HR.
    replace (0 * 0 + 0 * 0) with 0 in HR by ring. rewrite sqrt_0 in HR. lra. }
  destruct (polar_atan2 lo la Hp0) as [Hlo Hla]. fold rho t0 in Hlo, Hla.
  assert (Hxy : x <> 0 \/ y <> 0).
  { destruct (Req_dec x 0) as [E | E]; [| now left]. right. intros E'.
    rewrite E, E' in HS2. replace (0 * 0 + 0 * 0) with 0 in HS2 by ring.
    rewrite sqrt_0 in HS2. lra. }
  destruct (polar_atan2 x y Hxy) as [Hx Hy]. rewrite HS2 in Hx, Hy.
  set (al := Ideal.Ratan2 y x) in *.
  assert (Hca : cos al = cos t1).
  { unfold x in Hx. apply Rmult_eq_reg_l with r1; lra. }
  assert (Hsa : sin al = sin t1).
  { unfold y in Hy. apply Rmult_eq_reg_l with r1; lra. }
  rewrite HS2.
  set (s2 := sin (3000 * Doc.rad y)).
  set (c2 := cos (3000 * Doc.rad x)).
  pose proof (SIN_bound (3000 * Doc.rad y)) as Hs2. fold s2 in Hs2.
  pose proof (COS_bound (3000 * Doc.rad x)) as Hc2. fold c2 in Hc2.
  set (r2 := r1 - 0.00002 * s2).
  set (e2 := 0.000003 * c2).
  assert (Hsin : sin (al - e2) = sin (t1 - e2))
    by (rewrite !sin_minus, Hca, Hsa; reflexivity).
  assert (Hcos : cos (al - e2) = cos (t1 - e2))
    by (rewrite !cos_minus, Hca, Hsa; reflexivity).
  rewrite Hsin, Hcos.
  cut (forall LA LO : R,
         LA = rho * sin t0 -> LO = rho * cos t0 ->
         (r2 * sin (t1 - e2) - LA) * (r2 * sin (t1 - e2) - LA)
         + (r2 * cos (t1 - e2) - LO) * (r2 * cos (t1 - e2) - LO)
         <= 0.001 * 0.001).
  { intros H. exact (H la lo Hla Hlo). }
  intros LA LO -> ->.
  rewrite polar_gap.
  replace (t1 - e2 - t0) with (0.000003 * c1 - e2) by (unfold t1; lra).
  set (e := 0.000003 * c1 - e2).
  assert (He : -0.000006 <= e <= 0.000006) by (unfold e, e2; lra).
  pose proof (one_minus_cos e ltac:(lra)) as Hcose.
  assert (Hee : e * e <= 0.000006 * 0.000006) by nra.
  assert (Hr2 : 70 <= r2 <= 152) by (unfold r2; lra).
  assert (Hd : -0.00004 <= r2 - rho <= 0.00004) by (unfold r2, r1; lra).
  assert (Hdd : (r2 - rho) * (r2 - rho) <= 0.00004 * 0.00004) by nra.
  assert (Hrr : 0 <= r2 * rho <= 152 * 150) by nra.
  assert (Hg : 2 * r2 * rho * (1 - cos e)
               <= 2 * (152 * 150) * (0.000006 * 0.000006 / 2)).
  { replace (2 * r2 * rho * (1 - cos e))
      with (2 * ((r2 * rho) * (1 - cos e))) by ring.
    replace (2 * (152 * 150) * (0.000006 * 0.000006 / 2))
      with (2 * ((152 * 150) * (0.000006 * 0.000006 / 2))) by ring.
    apply Rmult_le_compat_l; [lra |].
    apply Rmult_le_compat; lra. }
  lra.
Qed.

(** The radius of a coordinate inside the box. *)
Lemma box_radius : forall la lo : R,
  0.8293 <= la <= 55.8271 -> 72.004 <= lo <= 137.8347 ->
  72 <= sqrt (lo * lo + la * la) <= 150.
Proof.
  intros la lo Hla Hlo. split.
  - rewrite <- (sqrt_square 72) by lra. apply sqrt_le_1_alt. nra.
  - rewrite <- (sqrt_square 150) by lra. apply sqrt_le_1_alt. nra.
Qed.

Lemma bdToGcj_offset : Doc.bdToGcj 0.0060 0.0065 = (0, 0).
Proof.
  unfold Doc.bdToGcj.
  replace (0.0060 - 0.0060) with 0 by lra.
  replace (0.0065 - 0.0065) with 0 by lra.
  replace (0 ^ 2 + 0 ^ 2) with 0 by lra. rewrite sqrt_0.
  replace (3000 * Doc.rad 0) with 0 by (unfold Doc.rad; lra).
  rewrite sin_0. f_equal; lra.
Qed.

End IdealBounds.

Lemma refiner_single_round_witness :
  ltb (PRC_EPS Ideal.arith) (math_hypot Ideal.math (dec 99) (dec 99)) = true
  /\ ltb (PRC_EPS Ideal.arith)
       (__abs__ Ideal.math
          (__sub__
             (value (call (gcj_bd_fn Ideal.math)
                       (value (call (bd_gcj_fn Ideal.math)
                                 (Ideal.point 0.0060 0.0065)
                                 (default (bd_gcj_fn Ideal.math))))
                       false))
             (Ideal.point 0.0060 0.0065)))
     = false
  /\ value (call (_bored Ideal.math (gcj_bd_fn Ideal.math)
                    (bd_gcj_fn Ideal.math))
              (Ideal.point 0.0060 0.0065) true)
     = __sub__
         (value (call (bd_gcj_fn Ideal.math) (Ideal.point 0.0060 0.0065)
                   (default (bd_gcj_fn Ideal.math))))
         (__sub__
            (value (call (gcj_bd_fn Ideal.math)
                      (value (call (bd_gcj_fn Ideal.math)
                                (Ideal.point 0.0060 0.0065)
                                (default (bd_gcj_fn Ideal.math))))
                      false))
            (Ideal.point 0.0060 0.0065))
  /\ i_ (value (rev_bored_locals Ideal.math (gcj_bd_fn Ideal.math)
                  (bd_gcj_fn Ideal.math) (Ideal.point 0.0060 0.0065)))
     = 1%nat.
Proof.
  assert (Hd : ltb (PRC_EPS Ideal.arith)
                 (__abs__ Ideal.math
                    (__sub__
                       (value (call (gcj_bd_fn Ideal.math)
                                 (value (call (bd_gcj_fn Ideal.math)
                                           (Ideal.point 0.0060 0.0065)
                                           (default (bd_gcj_fn Ideal.math))))
                                 false))
                       (Ideal.point 0.0060 0.0065)))
               = false).
  { cbn [call gcj_bd_fn bd_gcj_fn default]. unfold ret, value. cbn [fst].
    rewrite bd_gcj_ideal, bdToGcj_offset. cbn [fst snd].
    rewrite gcj_bd_ideal, gcjToBd_origin. cbn [fst snd].
    unfold __abs__, __sub__, Ideal.point. cbn [lat lon]. ideal_unfold.
    unfold Ideal.Rhypot.
    replace ((0.0060 - 0.0060) * (0.0060 - 0.0060)
             + (0.0065 - 0.0065) * (0.0065 - 0.0065))%R with 0%R by lra.
    rewrite sqrt_0. apply not_true_is_false. intros H.
    apply Rltb_true in H. lra. }
  split; [exact canary_ideal |]. split; [exact Hd |].
  apply refiner_single_round; [exact canary_ideal | exact Hd].
Defined.

(** ** The haversine distance, on the real numbers *)

(** X8.  On the real numbers the haversine distance lies between 0 and
    [PI * EARTH_R], half the circumference of the sphere. *)
Theorem distance_range : forall a b : Coords Ideal.arith,
  (0 <= distance Ideal.math a b <= PI * 6371000)%R.
Proof.
  intros a b. unfold distance.
  set (h := math_sqrt Ideal.math _).
  assert (Hh : (0 <= h)%R) by (unfold h; ideal_unfold; apply sqrt_pos).
  pose proof (asin_nonneg h Hh) as H0.
  pose proof (asin_bound h) as [_ H1].
  ideal_unfold. nra.
Qed.

(** X9.  On the real numbers, for two coordinates of the same
    longitude whose latitudes differ by at most 180 degrees, the
    haversine distance is the length of the arc of the meridian between
    them: [EARTH_R] times the difference of latitude in radians.  In
    particular the distance from a coordinate to itself is 0. *)
Theorem distance_meridian : forall la1 la2 lo : R,
  (Rabs (la1 - la2) <= 180)%R ->
  distance Ideal.math (Ideal.point la1 lo) (Ideal.point la2 lo)
  = (6371000 * (Rabs (la1 - la2) * (PI / 180)))%R.
Proof.
  intros la1 la2 lo Hd. unfold distance, __sub__, Ideal.point. cbn [lat lon].
  change (math_radians Ideal.math) with Ideal.Rradians.
  change (@sub Ideal.arith lo lo) with (lo - lo)%R.
  replace (lo - lo)%R with 0%R by lra. rewrite hav_zero.
  unfold hav. ideal_unfold. rewrite Rpow_2.
  rewrite Rmult_0_r, Rplus_0_r.
  rewrite <- Rsqr_pow2, sqrt_Rsqr_abs.
  pose proof PI_RGT_0 as Hpi.
  assert (Hu : (- (PI / 2) <= Ideal.Rradians (la1 - la2) / 2 <= PI / 2)%R).
  { unfold Ideal.Rradians. apply Rabs_le_both in Hd. nra. }
  rewrite (asin_abs_sin _ Hu).
  unfold Ideal.Rradians.
  replace ((la1 - la2) * (PI / 180) / 2)%R
    with ((la1 - la2) * (PI / 360))%R by lra.
  rewrite Rabs_mult. rewrite (Rabs_pos_eq (PI / 360)) by lra. lra.
Qed.

Lemma distance_meridian_witness :
  (Rabs (35 - 35) <= 180)%R
  /\ distance Ideal.math (Ideal.point 35 105) (Ideal.point 35 105)
     = (6371000 * (Rabs (35 - 35) * (PI / 180)))%R.
Proof.
  assert (H : (Rabs (35 - 35) <= 180)%R).
  { replace (35 - 35)%R with 0%R by lra. rewrite Rabs_R0. lra. }
  split.
  - exact H.
  - apply distance_meridian. exact H.
Defined.

(** ** The Baidu pair, on the real numbers *)

(** X10.  On the real numbers, once the offset (0.0060, 0.0065) is
    taken off, [gcj_bd] changes the magnitude of a coordinate by at
    most 0.00002; likewise the magnitude of [bd_gcj] of a coordinate
    differs from the magnitude of the coordinate less the offset by at
    most 0.00002. *)
Theorem baidu_radius : forall (la lo : R) (_dummy : bool),
  (Rabs (__abs__ Ideal.math
           (__sub__ (gcj_bd Ideal.math (Ideal.point la lo) _dummy)
              (Ideal.point 0.0060 0.0065))
         - __abs__ Ideal.math (Ideal.point la lo)) <= 0.00002)%R
  /\ (Rabs (__abs__ Ideal.math (bd_gcj Ideal.math (Ideal.point la lo) _dummy)
            - __abs__ Ideal.math
                (__sub__ (Ideal.point la lo) (Ideal.point 0.0060 0.0065)))
      <= 0.00002)%R.
Proof.
  intros la lo d. split.
  - unfold gcj_bd, __sub__, __abs__, Ideal.point. cbn [lat lon]. ideal_unfold.
    set (r := (sqrt (lo * lo + la * la) + _)%R).
    set (t := (Ideal.Ratan2 _ _ + _)%R).
    replace (r * sin t + 0.0060 - 0.0060)%R with (r * sin t)%R by lra.
    replace (r * cos t + 0.0065 - 0.0065)%R with (r * cos t)%R by lra.
    rewrite Rhypot_polar. unfold Ideal.Rhypot.
    replace (la * la + lo * lo)%R with (lo * lo + la * la)%R by lra.
    unfold r. apply radius_perturbed; [apply sqrt_pos |].
    rewrite Rabs_mult, Rabs_pos_eq by lra.
    pose proof (SIN_bound (Ideal.Rradians la * 3000)) as Hs.
    assert ((Rabs (sin (Ideal.Rradians la * 3000)) <= 1)%R)
      by (apply Rabs_le; lra).
    nra.
  - unfold bd_gcj, __sub__, __abs__, Ideal.point. cbn [lat lon]. ideal_unfold.
    set (x := (lo - 0.0065)%R). set (y := (la - 0.0060)%R).
    set (r := (sqrt (x * x + y * y) - _)%R).
    set (t := (Ideal.Ratan2 _ _ - _)%R).
    rewrite Rhypot_polar. unfold Ideal.Rhypot.
    replace (y * y + x * x)%R with (x * x + y * y)%R by lra.
    unfold r.
    replace (sqrt (x * x + y * y)
             - 0.00002 * sin (Ideal.Rradians y * 3000))%R
      with (sqrt (x * x + y * y)
            + - (0.00002 * sin (Ideal.Rradians y * 3000)))%R by lra.
    apply radius_perturbed; [apply sqrt_pos |].
    rewrite Rabs_Ropp, Rabs_mult, Rabs_pos_eq by lra.
    pose proof (SIN_bound (Ideal.Rradians y * 3000)) as Hs.
    assert ((Rabs (sin (Ideal.Rradians y * 3000)) <= 1)%R)
      by (apply Rabs_le; lra).
    nra.
Qed.

(** X11.  On the real numbers, for a coordinate [p] inside the box,
    [bd_gcj (gcj_bd p)] is within 0.001 degree of [p] in magnitude: the
    pair is an approximate inverse, before any refinement. *)
Theorem baidu_round_trip : forall (la lo : R) (d d' : bool),
  sanity_in_china_p (Ideal.point la lo) = true ->
  (__abs__ Ideal.math
     (__sub__ (bd_gcj Ideal.math (gcj_bd Ideal.math (Ideal.point la lo) d) d')
        (Ideal.point la lo))
   <= 0.001)%R.
Proof.
  intros la lo d d' Hin.
  apply sanity_ideal in Hin. unfold Ideal.point in Hin. cbn [lat lon] in Hin.
  destruct Hin as [Hla Hlo].
  pose proof (baidu_round_trip_raw la lo (box_radius la lo Hla Hlo)) as H.
  cbv zeta in H.
  rewrite gcj_bd_ideal, bd_gcj_ideal.
  unfold __abs__, __sub__, Ideal.point. cbn [lat lon]. ideal_unfold.
  unfold Ideal.Rhypot.
  rewrite <- (sqrt_square 0.001) by lra.
  apply sqrt_le_1_alt. exact H.
Qed.

Lemma baidu_round_trip_witness :
  sanity_in_china_p (Ideal.point 35 105) = true
  /\ (__abs__ Ideal.math
        (__sub__
           (bd_gcj Ideal.math (gcj_bd Ideal.math (Ideal.point 35 105) false)
              false)
           (Ideal.point 35 105))
      <= 0.001)%R.
Proof.
  split.
  - exact center_inside.
  - apply baidu_round_trip. exact center_inside.
Defined.

(** ** The size of the distortion, on the real numbers *)

(** X12.  On the real numbers, for a coordinate inside the box
    [wgs_gcj] moves the latitude by at most 0.0075 degree and the
    longitude by at most 0.023 degree; [gcj_wgs] moves the coordinate
    by the opposite amounts. *)
Theorem wgs_gcj_displacement : forall (la lo : R) (check_china : bool),
  sanity_in_china_p (Ideal.point la lo) = true ->
  (Rabs (lat (value (wgs_gcj Ideal.math (Ideal.point la lo) check_china)) - la)
   <= 0.0075)%R
  /\ (Rabs (lon (value (wgs_gcj Ideal.math (Ideal.point la lo) check_china))
            - lo)
      <= 0.023)%R
  /\ (lat (value (gcj_wgs Ideal.math (Ideal.point la lo) check_china)) - la
      = - (lat (value (wgs_gcj Ideal.math (Ideal.point la lo) check_china))
           - la))%R
  /\ (lon (value (gcj_wgs Ideal.math (Ideal.point la lo) check_china)) - lo
      = - (lon (value (wgs_gcj Ideal.math (Ideal.point la lo) check_china))
           - lo))%R.
Proof.
  intros la lo b Hin.
  unfold gcj_wgs. rewrite value_bind.
  rewrite wgs_gcj_ideal by (now right).
  apply sanity_ideal in Hin. unfold Ideal.point in Hin. cbn [lat lon] in Hin.
  unfold ret, value, Doc.wgsToGcj, Ideal.point, __sub__.
  cbn [fst snd lat lon]. cbv [sub Ideal.arith].
  split; [| split; [| split]].
  - replace (la + Doc.dLat (lo - 105) (la - 35) / Doc.latArcLen la - la)%R
      with (Doc.dLat (lo - 105) (la - 35) / Doc.latArcLen la)%R by lra.
    apply Rle_trans with (770 / 104000)%R; [| lra].
    apply Rabs_div_le.
    + apply dLat_bound; lra.
    + pose proof (latArcLen_lower la). lra.
  - replace (lo + Doc.dLon (lo - 105) (la - 35) / Doc.lonArcLen la - lo)%R
      with (Doc.dLon (lo - 105) (la - 35) / Doc.lonArcLen la)%R by lra.
    apply Rle_trans with (965 / 43000)%R; [| lra].
    apply Rabs_div_le.
    + apply dLon_bound; lra.
    + pose proof (lonArcLen_lower la ltac:(lra)). lra.
  - lra.
  - lra.
Qed.

Lemma wgs_gcj_displacement_witness :
  sanity_in_china_p (Ideal.point 35 105) = true
  /\ (Rabs (lat (value (wgs_gcj Ideal.math (Ideal.point 35 105) true)) - 35)
      <= 0.0075)%R
  /\ (Rabs (lon (value (wgs_gcj Ideal.math (Ideal.point 35 105) true)) - 105)
      <= 0.023)%R
  /\ (lat (value (gcj_wgs Ideal.math (Ideal.point 35 105) true)) - 35
      = - (lat (value (wgs_gcj Ideal.math (Ideal.point 35 105) true)) - 35))%R
  /\ (lon (value (gcj_wgs Ideal.math (Ideal.point 35 105) true)) - 105
      = - (lon (value (wgs_gcj Ideal.math (Ideal.point 35 105) true))
           - 105))%R.
Proof.
  split.
  - exact center_inside.
  - apply wgs_gcj_displacement. exact center_inside.
Defined.

(** * The program with its exceptions, and binary64 numbers *)

(** ** The program with its exceptions, in every arithmetic *)

Section PyFacts.

Variable A : Arith.
Variable L : MathLib A.
Variable E : Errors A.

(** *** Sequencing of runs *)

Lemma py_bind_returns : forall (X Y : Type) (x : X) (w : list (diagnostic A))
    (f : X -> Py.run A Y),
  Py.bind (Returns x, w) f = (fst (f x), w ++ snd (f x)).
Proof. reflexivity. Qed.

Lemma py_bind_raises : forall (X Y : Type) (e : exn) (w : list (diagnostic A))
    (f : X -> Py.run A Y),
  Py.bind (Raises e, w) f = (Raises e, w).
Proof. reflexivity. Qed.

Lemma py_bind_ret_l : forall (X Y : Type) (x : X) (f : X -> Py.run A Y),
  Py.bind (Py.ret x) f = f x.
Proof. intros X Y x f. unfold Py.bind, Py.ret. simpl. now destruct (f x). Qed.

Lemma py_map_bind : forall (X Y Z : Type) (g : Y -> Z) (m : Py.run A X)
    (f : X -> Py.run A Y),
  Py.map g (Py.bind m f) = Py.bind m (fun x => Py.map g (f x)).
Proof.
  intros X Y Z g [[x | e] w] f; unfold Py.map, Py.bind; simpl.
  - destruct (f x) as [[y | e] w']; reflexivity.
  - reflexivity.
Qed.

Lemma py_bind_inv : forall (X Y : Type) (m : Py.run A X) (f : X -> Py.run A Y)
    (y : Y) (w : list (diagnostic A)),
  Py.bind m f = (Returns y, w) ->
  exists x w1 w2,
    m = (Returns x, w1) /\ f x = (Returns y, w2) /\ w = w1 ++ w2.
Proof.
  intros X Y [[x | e] w1] f y w H; unfold Py.bind in H; simpl in H.
  - exists x, w1, (snd (f x)). destruct (f x) as [o w2]. simpl in *.
    inversion H. subst. auto.
  - discriminate H.
Qed.

Lemma py_checked_inv : forall (X : Type) (e : option exn) (v x : X)
    (w : list (diagnostic A)),
  Py.checked e v = (Returns x, w) -> x = v /\ w = [].
Proof.
  intros X [e |] v x w H; unfold Py.checked, Py.raise, Py.ret in H.
  - discriminate H.
  - inversion H. auto.
Qed.

(** Removes the calls that have returned from the head of a run. *)
Ltac py_ret :=
  repeat match goal with
         | |- context [Py.bind (Py.ret ?x) ?f] =>
             rewrite (py_bind_ret_l _ _ x f)
         end;
  cbv beta.

(** *** The loop of [rev_bored] *)

(** The [while] loop of [rev_bored] is the repetition of the
    documentation. *)
Lemma py_loop_repeats : forall (fuel : nat) (fwd : Py.conversion A)
    (bad : Coords A) (s : locals A),
  (i_ s + fuel = 10)%nat ->
  Py.map (@Refiner.of_locals A) (Py.loop L E fuel fwd bad s)
  = Refiner.repeat_up_to L E fuel (Py.call fwd) bad (Refiner.of_locals s).
Proof.
  induction fuel as [| fuel IH]; intros fwd bad s Hi.
  - reflexivity.
  - cbn [Py.loop Refiner.repeat_up_to].
    unfold Py.loop_test.
    replace (i_ s <? 10)%nat with true
      by (symmetry; apply Nat.ltb_lt; lia).
    unfold Py.__abs__, Refiner.magnitude. cbn [Refiner.of_locals Refiner.last_diff].
    unfold Py.hypot.
    destruct (err_hypot E (lat (diff_ s)) (lon (diff_ s))) as [e |].
    + reflexivity.
    + cbn [Py.checked].
      py_ret.
      change (ltb (PRC_EPS A) (math_hypot L (lat (diff_ s)) (lon (diff_ s))))
        with (ltb (dec 1e-5) (math_hypot L (lat (diff_ s)) (lon (diff_ s)))).
      destruct (ltb (dec 1e-5) (math_hypot L (lat (diff_ s)) (lon (diff_ s)))).
      * unfold Py.loop_body.
        cbn [Refiner.of_locals Refiner.estimate Refiner.rounds].
        destruct (Py.call fwd (wgs_ s) false) as [[g | e] w].
        -- cbn [Py.bind Py.ret fst snd].
           change (Refiner.mkProgress
                     (Refiner.minus (wgs_ s) (Refiner.minus g bad))
                     (Refiner.minus g bad) (S (i_ s)))
             with (Refiner.of_locals
                     (mkLocals (__sub__ (wgs_ s) (__sub__ g bad)) (wgs_ s)
                        (__sub__ g bad) (S (i_ s)))).
           rewrite <- (IH fwd bad
                         (mkLocals (__sub__ (wgs_ s) (__sub__ g bad)) (wgs_ s)
                            (__sub__ g bad) (S (i_ s))))
             by (cbn [i_]; lia).
           destruct (Py.loop L E fuel fwd bad _) as [[s' | e] w'];
             cbn [Py.map fst snd]; now rewrite app_nil_r.
        -- reflexivity.
      * reflexivity.
Qed.

(** Ten rounds are all the loop can make: once [i] has reached 10 the
    test fails without a call, so a longer unrolling gives the same
    run. *)
Lemma py_loop_fuel : forall (fuel k : nat) (fwd : Py.conversion A)
    (bad : Coords A) (s : locals A),
  (i_ s + fuel = 10)%nat ->
  Py.loop L E (fuel + k) fwd bad s = Py.loop L E fuel fwd bad s.
Proof.
  induction fuel as [| fuel IH]; intros k fwd bad s Hi.
  - destruct k as [| k]; [reflexivity |].
    cbn [Nat.add Py.loop]. unfold Py.loop_test.
    replace (i_ s <? 10)%nat with false
      by (symmetry; apply Nat.ltb_ge; lia).
    reflexivity.
  - cbn [Nat.add Py.loop].
    destruct (Py.loop_test L E s) as [[t | e] w]; [| reflexivity].
    destruct t; [| reflexivity].
    cbn [Py.bind fst snd].
    unfold Py.loop_body.
    destruct (Py.call fwd (wgs_ s) false) as [[g | e] w']; [| reflexivity].
    cbn [Py.bind Py.ret fst snd].
    rewrite IH by (cbn [i_]; lia). reflexivity.
Qed.

Lemma py_rev_bored_refines : forall (fwd rev : Py.conversion A)
    (target : Coords A) (check_china : bool),
  Py.rev_bored L E fwd rev target check_china
  = Py.map (@Refiner.estimate A)
      (Refiner.refine L E (Py.call fwd) (Py.call1 rev) target).
Proof.
  intros fwd rev target b.
  unfold Py.rev_bored, Py.rev_bored_locals, Refiner.refine.
  destruct (Py.call1 rev target) as [[first | e] w].
  - cbn [Py.bind fst snd].
    change (Refiner.mkProgress first (mkCoords (dec 99) (dec 99)) 0)
      with (Refiner.of_locals (mkLocals first target (mkCoords (dec 99) (dec 99)) 0)).
    rewrite <- (py_loop_repeats 10 fwd target
                  (mkLocals first target (mkCoords (dec 99) (dec 99)) 0)
                  eq_refl).
    destruct (Py.loop L E 10 fwd target _) as [[s | e] w'];
      unfold Py.bind, Py.map, Py.ret; cbn [fst snd Refiner.of_locals Refiner.estimate];
      now rewrite ?app_nil_r.
  - reflexivity.
Qed.

(** The repetition runs at most [times] rounds more, and it stops
    before [times] rounds only when the magnitude no longer exceeds
    [PRC_EPS]. *)
Lemma repeat_up_to_rounds : forall (times : nat) forward (target : Coords A)
    (p q : Refiner.progress A) (w : list (diagnostic A)),
  Refiner.repeat_up_to L E times forward target p = (Returns q, w) ->
  (Refiner.rounds p <= Refiner.rounds q <= Refiner.rounds p + times)%nat
  /\ (Refiner.rounds q = (Refiner.rounds p + times)%nat
      \/ ltb (dec 1e-5)
           (math_hypot L (lat (Refiner.last_diff q)) (lon (Refiner.last_diff q)))
         = false)
  /\ (ltb (dec 1e-5)
        (math_hypot L (lat (Refiner.last_diff p)) (lon (Refiner.last_diff p)))
      = true ->
      (0 < times)%nat -> (Refiner.rounds p < Refiner.rounds q)%nat).
Proof.
  induction times as [| times IH]; intros forward target p q w H.
  - cbn in H. inversion H. subst. repeat split; lia.
  - cbn [Refiner.repeat_up_to] in H.
    apply py_bind_inv in H. destruct H as (m & w1 & w2 & Hm & H & ->).
    unfold Refiner.magnitude, Py.hypot in Hm.
    apply py_checked_inv in Hm. destruct Hm as [-> ->].
    destruct (ltb (dec 1e-5)
                (math_hypot L (lat (Refiner.last_diff p))
                   (lon (Refiner.last_diff p)))) eqn:Ht.
    + apply py_bind_inv in H. destruct H as (f & w3 & w4 & Hf & H & ->).
      apply IH in H. cbn [Refiner.rounds Refiner.last_diff] in H.
      destruct H as (Hr & Hstop & _).
      repeat split; try lia.
      destruct Hstop as [Hstop | Hstop]; [left; lia | right; exact Hstop].
    + inversion H. subst. repeat split; try lia.
      right. exact Ht.
Qed.

(** The repetition returns when the magnitude and the forward function
    return. *)
Lemma repeat_up_to_returns : forall (times : nat) forward (target : Coords A)
    (p : Refiner.progress A),
  (forall x y, err_hypot E x y = None) ->
  (forall c, exists v w, forward c false = (Returns v, w)) ->
  exists q w, Refiner.repeat_up_to L E times forward target p = (Returns q, w).
Proof.
  induction times as [| times IH]; intros forward target p Hh Hf.
  - exists p, []. reflexivity.
  - cbn [Refiner.repeat_up_to]. unfold Refiner.magnitude, Py.hypot.
    rewrite Hh. cbn [Py.checked]. py_ret.
    destruct (ltb _ _).
    + destruct (Hf (Refiner.estimate p)) as (v & w & Hv). rewrite Hv.
      rewrite py_bind_returns.
      destruct (IH forward target
                  (Refiner.mkProgress
                     (Refiner.minus (Refiner.estimate p) (Refiner.minus v target))
                     (Refiner.minus v target) (S (Refiner.rounds p))) Hh Hf)
        as (q & w' & Hq).
      rewrite Hq. exists q, (w ++ w'). reflexivity.
    + exists p, []. reflexivity.
Qed.

(** Each round evaluates the forward function once: with a forward
    function that issues one warning at each evaluation, the repetition
    issues as many warnings as it runs rounds, raising or not. *)
Lemma repeat_up_to_evaluations : forall (times : nat) forward (target : Coords A)
    (p : Refiner.progress A),
  (forall c, length (snd (forward c false)) = 1%nat) ->
  (length (snd (Refiner.repeat_up_to L E times forward target p)) <= times)%nat.
Proof.
  induction times as [| times IH]; intros forward target p Hf.
  - cbn. lia.
  - cbn [Refiner.repeat_up_to]. unfold Refiner.magnitude, Py.hypot.
    destruct (err_hypot E _ _) as [e |].
    + cbn. lia.
    + cbn [Py.checked]. py_ret.
      destruct (ltb _ _).
      * pose proof (Hf (Refiner.estimate p)) as H1.
        destruct (forward (Refiner.estimate p) false) as [[v | e] w].
        -- rewrite py_bind_returns. cbn [snd] in *. rewrite length_app.
           specialize (IH forward target
                         (Refiner.mkProgress
                            (Refiner.minus (Refiner.estimate p)
                               (Refiner.minus v target))
                            (Refiner.minus v target) (S (Refiner.rounds p))) Hf).
           lia.
        -- rewrite py_bind_raises. cbn [snd] in *. lia.
      * cbn. lia.
Qed.

(** *** The runs that return

    A run that returns gives the value and the warnings that the
    program has when every call of the library is taken by its value. *)

(** Opens the calls of the library in [H]. *)
Ltac py_calls H :=
  unfold Py.quot, Py.sqrt, Py.sin, Py.cos, Py.atan2, Py.pow, Py.hypot,
    Py.radians in H.

(** From a run [H] that returns, the calls it is made of returned. *)
Ltac py_returned H :=
  repeat match type of H with
         | Py.bind _ _ = (Returns _, _) =>
             let x := fresh "x" in
             let w1 := fresh "w" in
             let w2 := fresh "w" in
             let Hc := fresh "Hc" in
             apply py_bind_inv in H;
             destruct H as (x & w1 & w2 & Hc & H & ->);
             try (apply py_checked_inv in Hc; destruct Hc as [-> ->])
         end;
  match type of H with
  | Py.ret _ = (Returns _, _) => unfold Py.ret in H; inversion H; subst; clear H
  | _ => idtac
  end.

Lemma py_dLat_m_returns : forall (x y v : num A) (w : list (diagnostic A)),
  Py.dLat_m L E x y = (Returns v, w) -> v = dLat_m L x y /\ w = [].
Proof.
  intros x y v w H. unfold Py.dLat_m in H. py_calls H. py_returned H.
  split; reflexivity.
Qed.

Lemma py_dLon_m_returns : forall (x y v : num A) (w : list (diagnostic A)),
  Py.dLon_m L E x y = (Returns v, w) -> v = dLon_m L x y /\ w = [].
Proof.
  intros x y v w H. unfold Py.dLon_m in H. py_calls H. py_returned H.
  split; reflexivity.
Qed.

Lemma py_wgs_gcj_returns : forall (wgs v : Coords A) (b : bool)
    (w : list (diagnostic A)),
  Py.wgs_gcj L E wgs b = (Returns v, w) -> wgs_gcj L wgs b = (v, w).
Proof.
  intros wgs v b w H. unfold Py.wgs_gcj in H. unfold wgs_gcj.
  destruct (b && negb (sanity_in_china_p wgs)).
  - cbv in H. inversion H. reflexivity.
  - py_calls H. py_returned H.
    apply py_dLat_m_returns in Hc. destruct Hc as [-> ->].
    apply py_dLon_m_returns in Hc0. destruct Hc0 as [-> ->].
    reflexivity.
Qed.

Lemma py_gcj_wgs_returns : forall (gcj v : Coords A) (b : bool)
    (w : list (diagnostic A)),
  Py.gcj_wgs L E gcj b = (Returns v, w) -> gcj_wgs L gcj b = (v, w).
Proof.
  intros gcj v b w H. unfold Py.gcj_wgs in H. py_returned H.
  apply py_wgs_gcj_returns in Hc. unfold gcj_wgs. rewrite Hc.
  unfold bind, ret. cbn [fst snd]. reflexivity.
Qed.

Lemma py_gcj_bd_returns : forall (gcj v : Coords A) (d : bool)
    (w : list (diagnostic A)),
  Py.gcj_bd L E gcj d = (Returns v, w) -> v = gcj_bd L gcj d /\ w = [].
Proof.
  intros gcj v d w H. unfold Py.gcj_bd in H. py_calls H. py_returned H.
  split; reflexivity.
Qed.

Lemma py_bd_gcj_returns : forall (bd v : Coords A) (d : bool)
    (w : list (diagnostic A)),
  Py.bd_gcj L E bd d = (Returns v, w) -> v = bd_gcj L bd d /\ w = [].
Proof.
  intros bd v d w H. unfold Py.bd_gcj in H. py_calls H. py_returned H.
  split; reflexivity.
Qed.

Lemma py_bd_wgs_returns : forall (bd v : Coords A) (b : bool)
    (w : list (diagnostic A)),
  Py.bd_wgs L E bd b = (Returns v, w) -> bd_wgs L bd b = (v, w).
Proof.
  intros bd v b w H. unfold Py.bd_wgs in H. py_returned H.
  apply py_bd_gcj_returns in Hc. destruct Hc as [-> ->].
  apply py_gcj_wgs_returns in H. exact H.
Qed.

Lemma py_wgs_bd_returns : forall (bd v : Coords A) (b : bool)
    (w : list (diagnostic A)),
  Py.wgs_bd L E bd b = (Returns v, w) -> wgs_bd L bd b = (v, w).
Proof.
  intros bd v b w H. unfold Py.wgs_bd in H. py_returned H.
  apply py_wgs_gcj_returns in Hc. apply py_gcj_bd_returns in H.
  destruct H as [-> ->]. unfold wgs_bd. rewrite Hc.
  unfold bind, ret. cbn [fst snd]. reflexivity.
Qed.


Lemma py_loop_returns : forall (fuel : nat) (fwd : Py.conversion A)
    (fwd' : conversion A) (bad : Coords A) (s s' : locals A)
    (w : list (diagnostic A)),
  returns_as fwd fwd' ->
  (i_ s + fuel = 10)%nat ->
  Py.loop L E fuel fwd bad s = (Returns s', w) ->
  loop L fuel fwd' bad s = (s', w).
Proof.
  induction fuel as [| fuel IH]; intros fwd fwd' bad s s' w Hf Hi H.
  - cbn in H. inversion H. reflexivity.
  - cbn [Py.loop] in H. cbn [loop].
    unfold Py.loop_test in H. unfold loop_test.
    replace (i_ s <? 10)%nat with true in *
      by (symmetry; apply Nat.ltb_lt; lia).
    unfold Py.__abs__ in H. py_calls H.
    apply py_bind_inv in H. destruct H as (t & w1 & w2 & Ht & H & ->).
    py_returned Ht. cbn [andb]. unfold __abs__.
    destruct (ltb (PRC_EPS A) (math_hypot L (lat (diff_ s)) (lon (diff_ s)))).
    + unfold Py.loop_body in H.
      apply py_bind_inv in H. destruct H as (s1 & w3 & w4 & Hb & H & ->).
      py_returned Hb.
      destruct Hf as [Hd Hf']. apply Hf' in Hc.
      apply (IH fwd fwd' bad _ s' w4 (conj Hd Hf')) in H; [| cbn [i_]; lia].
      unfold loop_body. rewrite Hc. unfold bind at 2. unfold bind at 1.
      cbn [fst snd ret]. rewrite H.
      cbn [fst snd]. now rewrite app_nil_r.
    + py_returned H. reflexivity.
Qed.

Lemma py_rev_bored_returns : forall (fwd rev : Py.conversion A)
    (fwd' rev' : conversion A) (bad v : Coords A) (b : bool)
    (w : list (diagnostic A)),
  returns_as fwd fwd' -> returns_as rev rev' ->
  Py.rev_bored L E fwd rev bad b = (Returns v, w) ->
  rev_bored L fwd' rev' bad b = (v, w).
Proof.
  intros fwd rev fwd' rev' bad v b w Hf [Hd Hr] H.
  unfold Py.rev_bored, Py.rev_bored_locals in H.
  apply py_bind_inv in H. destruct H as (s & w1 & w2 & Hl & H & ->).
  py_returned H. py_returned Hl. rename Hc into Hc0. rename Hl into Hc.
  unfold Py.call1 in Hc0. apply Hr in Hc0. rewrite Hd in Hc0.
  apply (py_loop_returns 10 fwd fwd' bad _ _ _ Hf) in Hc; [| reflexivity].
  unfold rev_bored, rev_bored_locals, call1. rewrite Hc0.
  unfold bind at 2. cbn [fst snd]. rewrite Hc.
  unfold bind, ret. cbn [fst snd]. now rewrite app_nil_r.
Qed.

End PyFacts.

(** ** More facts of the machine reading *)

Section MoreMachineFacts.

Local Open Scope float_scope.

Lemma shr_1_nonneg : forall mrs, (0 <= shr_m mrs)%Z -> (0 <= shr_m (shr_1 mrs))%Z.
Proof.
  intros [m r s] H. simpl in *.
  destruct m as [| p | p]; simpl; try lia.
  - destruct p; simpl; lia.
Qed.

Lemma iter_shr_1_nonneg : forall p mrs,
  (0 <= shr_m mrs)%Z -> (0 <= shr_m (SpecFloat.iter_pos shr_1 p mrs))%Z.
Proof.
  induction p as [p IH | p IH |]; intros mrs H; simpl.
  - apply IH, IH, shr_1_nonneg, H.
  - apply IH, IH, H.
  - apply shr_1_nonneg, H.
Qed.

Lemma shr_fexp_nonneg : forall m e l,
  (0 <= m)%Z -> (0 <= shr_m (fst (shr_fexp prec emax m e l)))%Z.
Proof.
  intros m e l H. unfold shr_fexp, shr.
  assert (H0 : (0 <= shr_m (shr_record_of_loc m l))%Z).
  { destruct l as [| []]; simpl; exact H. }
  destruct (fexp prec emax (Zdigits2 m + e) - e)%Z; simpl; try exact H0.
  now apply iter_shr_1_nonneg.
Qed.

Lemma round_nearest_even_nonneg : forall m l,
  (0 <= m)%Z -> (0 <= round_nearest_even m l)%Z.
Proof.
  intros m l H. unfold round_nearest_even.
  destruct l as [| []]; try lia.
  destruct (IntDef.Z.even m); lia.
Qed.

Lemma round_aux_signed : forall sx mx ex lx,
  (0 <= mx)%Z -> B64.signed sx (binary_round_aux prec emax sx mx ex lx).
Proof.
  intros sx mx ex lx H. unfold binary_round_aux.
  pose proof (shr_fexp_nonneg mx ex lx H) as H1.
  destruct (shr_fexp prec emax mx ex lx) as [mrs' e']. simpl in H1.
  pose proof (shr_fexp_nonneg _ e' loc_Exact
                (round_nearest_even_nonneg _ (loc_of_shr_record mrs') H1)) as H2.
  destruct (shr_fexp prec emax _ e' loc_Exact) as [mrs'' e'']. simpl in H2.
  destruct (shr_m mrs'') as [| p | p]; simpl.
  - reflexivity.
  - destruct (_ <=? _)%Z; reflexivity.
  - lia.
Qed.

Lemma round_signed : forall sx mx ex,
  B64.signed sx (binary_round prec emax sx mx ex).
Proof.
  intros sx mx ex. unfold binary_round.
  destruct (shl_align mx ex _) as [mz ez]. apply round_aux_signed. lia.
Qed.

Lemma is_finite_finite_SF : forall x : float,
  is_finite x = true -> B64.finite_SF (Prim2SF x).
Proof.
  intros x H.
  destruct (is_finite_SF x H) as [[s E] | (s & m & e & E)]; rewrite E; exact I.
Qed.

Lemma signed_number : forall s f, B64.signed s f -> f <> S754_nan.
Proof. intros s f H E. rewrite E in H. exact H. Qed.

Lemma SFeqb_refl : forall f : spec_float, f <> S754_nan -> SFeqb f f = true.
Proof.
  intros [s | s | | s m e] H; unfold SFeqb.
  - reflexivity.
  - destruct s; reflexivity.
  - now elim H.
  - now rewrite SFcompare_refl_finite.
Qed.

Lemma normalize_number : forall m e,
  binary_normalize prec emax m e false <> S754_nan.
Proof.
  intros [| p | p] e; simpl.
  - discriminate.
  - apply (signed_number false), round_signed.
  - apply (signed_number true), round_signed.
Qed.

(** The sum of two finite numbers is a number. *)
Lemma SF64add_number : forall x y : spec_float,
  B64.finite_SF x -> B64.finite_SF y -> SF64add x y <> S754_nan.
Proof.
  intros [sx | sx | | sx mx ex] [sy | sy | | sy my ey] Hx Hy;
    try contradiction; unfold SF64add, SFadd.
  - destruct sx, sy; discriminate.
  - discriminate.
  - discriminate.
  - apply normalize_number.
Qed.

Lemma b64_add_number : forall x y : float,
  is_finite x = true -> is_finite y = true -> is_nan (x + y) = false.
Proof.
  intros x y Hx Hy. unfold is_nan. rewrite eqb_spec, add_spec.
  rewrite SFeqb_refl; [reflexivity |].
  apply SF64add_number; now apply is_finite_finite_SF.
Qed.

Lemma b64_eqb_refl : forall x : float, is_nan x = false -> (x =? x) = true.
Proof.
  intros x H. unfold is_nan in H. now destruct (x =? x).
Qed.

(** [a + b == b + a] for coordinates with finite components. *)
Lemma coords_add_comm_equal : forall a b : Coords B64.arith,
  B64.finite a = true -> B64.finite b = true ->
  B64.equal (__add__ a b) (__add__ b a) = true.
Proof.
  intros a b Ha Hb. rewrite (coords_add_comm_b64 b a).
  unfold B64.finite in Ha, Hb.
  apply andb_true_iff in Ha. apply andb_true_iff in Hb.
  destruct Ha as [Ha1 Ha2]. destruct Hb as [Hb1 Hb2].
  unfold B64.equal, __add__. cbn [lat lon]. cbv [add B64.arith].
  rewrite !b64_eqb_refl; [reflexivity | |]; now apply b64_add_number.
Qed.

(** The opposite of a factor is the opposite of the product. *)
Lemma SF64mul_opp_l : forall x y : spec_float,
  SF64mul (SFopp x) y = SFopp (SF64mul x y).
Proof.
  intros [sx | sx | | sx mx ex] [sy | sy | | sy my ey]; simpl;
    try reflexivity;
    try (destruct sx, sy; reflexivity).
  unfold SF64mul, SFmul. rewrite SFopp_round_aux.
  destruct sx, sy; reflexivity.
Qed.

Lemma b64_mul_opp_l : forall x y : float, (- x) * y = - (x * y).
Proof.
  intros x y. apply Prim2SF_inj.
  now rewrite opp_spec, !mul_spec, opp_spec, SF64mul_opp_l.
Qed.

Lemma b64_opp_opp : forall x : float, - - x = x.
Proof.
  intros x. apply Prim2SF_inj. rewrite !opp_spec.
  destruct (Prim2SF x) as [s | s | | s m e]; simpl;
    try reflexivity; now rewrite negb_involutive.
Qed.

Lemma b64_mul_opp_opp : forall x : float, (- x) * (- x) = x * x.
Proof.
  intros x. rewrite b64_mul_opp_l, (b64_mul_comm x (- x)), b64_mul_opp_l.
  apply b64_opp_opp.
Qed.

(** Squares, sums of squares and their square roots are not below
    zero. *)
Lemma SF64mul_self_signed : forall x : spec_float,
  B64.finite_SF x -> B64.signed false (SF64mul x x).
Proof.
  intros [s | s | | s m e] H; try contradiction; unfold SF64mul, SFmul.
  - simpl. now destruct s.
  - replace (xorb s s) with false by (now destruct s).
    apply round_aux_signed. lia.
Qed.

Lemma SF64add_signed : forall x y : spec_float,
  B64.signed false x -> B64.signed false y -> B64.signed false (SF64add x y).
Proof.
  intros [sx | sx | | sx mx ex] [sy | sy | | sy my ey] Hx Hy;
    simpl in Hx, Hy; try contradiction; subst; try reflexivity.
  unfold SF64add, SFadd. simpl. apply round_signed.
Qed.

Lemma sqrtrem_nonneg : forall n : Z, (0 <= fst (IntDef.Z.sqrtrem n))%Z.
Proof.
  intros [| p | p]; simpl; try lia.
  destruct (PosDef.Pos.sqrtrem p) as [q [| r |]]; simpl; lia.
Qed.

Lemma SF64sqrt_signed : forall x : spec_float,
  B64.signed false x -> B64.signed false (SF64sqrt x).
Proof.
  intros [s | s | | s m e] H; simpl in H; try contradiction; subst;
    try reflexivity.
  unfold SF64sqrt, SFsqrt, SFsqrt_core_binary.
  set (m' := match _ with 0%Z => _ | Z.pos _ => _ | Z.neg _ => _ end).
  pose proof (sqrtrem_nonneg m') as Hq.
  destruct (IntDef.Z.sqrtrem m') as [q r]. simpl in Hq.
  now apply round_aux_signed.
Qed.

Lemma SFleb_zero_signed : forall x : spec_float,
  B64.signed false x -> SFleb (S754_zero false) x = true.
Proof.
  intros [s | s | | s m e] H; simpl in H; try contradiction; subst; reflexivity.
Qed.

Lemma b64_hypot_series : forall x y : float,
  is_finite x = true -> is_finite y = true ->
  (0 <=? PrimFloat.sqrt (x * x + y * y)) = true.
Proof.
  intros x y Hx Hy. rewrite leb_spec, sqrt_spec, add_spec, !mul_spec.
  change (Prim2SF 0) with (S754_zero false).
  apply SFleb_zero_signed, SF64sqrt_signed, SF64add_signed;
    apply SF64mul_self_signed; now apply is_finite_finite_SF.
Qed.

(** The library of power series has the properties asked of the
    library of the platform. *)
Lemma series_library :
  B64.nonneg_hypot B64.series /\ B64.odd_library B64.series.
Proof.
  split; [| split; [| split]].
  - intros x y Hx Hy. now apply b64_hypot_series.
  - intros x. cbn [math_radians B64.series]. apply b64_mul_opp_l.
  - intros x. cbn [math_sin B64.series].
    now rewrite b64_mul_opp_opp, b64_mul_opp_l.
  - intros x. cbn [math_pow B64.series].
    replace (B64.of_lit 2 =? 2) with true by (vm_compute; reflexivity).
    apply b64_mul_opp_opp.
Qed.

(** The distance, compared with [==]. *)
Lemma distance_sym_equal : forall L : MathLib B64.arith,
  B64.odd_library L ->
  forall a b : Coords B64.arith,
    distance L a b = distance L b a
    /\ (is_nan (distance L a b) = false ->
        (distance L a b =? distance L b a) = true).
Proof.
  intros L HL a b. split.
  - now apply distance_sym_b64.
  - intros Hn. rewrite <- (distance_sym_b64 HL a b). now apply b64_eqb_refl.
Qed.

Lemma abs_nonneg_b64 : forall L : MathLib B64.arith,
  B64.nonneg_hypot L ->
  forall c : Coords B64.arith,
    B64.finite c = true -> (0 <=? __abs__ L c) = true.
Proof.
  intros L HL c Hc. unfold B64.finite in Hc.
  apply andb_true_iff in Hc. destruct Hc as [H1 H2].
  unfold __abs__. now apply HL.
Qed.

End MoreMachineFacts.

(** ** The runs of the conversions *)

Section PyRuns.

Variable A : Arith.
Variable L : MathLib A.
Variable E : Errors A.

(** *** The runs that issue no warning *)

Lemma py_bind_silent : forall (X Y : Type) (m : Py.run A X) (f : X -> Py.run A Y),
  snd m = [] -> (forall x, snd (f x) = []) -> snd (Py.bind m f) = [].
Proof.
  intros X Y [[x | e] w] f Hm Hf; simpl in Hm; subst; unfold Py.bind; simpl.
  - apply Hf.
  - reflexivity.
Qed.

Lemma py_checked_silent : forall (X : Type) (e : option exn) (v : X),
  snd (@Py.checked A X e v) = [].
Proof. intros X [e |] v; reflexivity. Qed.

(** A run made of calls and returns issues no warning. *)
Ltac py_silent :=
  repeat first
    [ apply py_checked_silent
    | reflexivity
    | apply py_bind_silent; [| intros ? ] ].

Lemma py_dLat_m_silent : forall x y : num A, snd (Py.dLat_m L E x y) = [].
Proof.
  intros x y. unfold Py.dLat_m, Py.quot, Py.sqrt, Py.sin. py_silent.
Qed.

Lemma py_dLon_m_silent : forall x y : num A, snd (Py.dLon_m L E x y) = [].
Proof.
  intros x y. unfold Py.dLon_m, Py.quot, Py.sqrt, Py.sin. py_silent.
Qed.

Lemma py_wgs_gcj_silent : forall (wgs : Coords A) (b : bool),
  b = false \/ sanity_in_china_p wgs = true ->
  snd (Py.wgs_gcj L E wgs b) = [].
Proof.
  intros wgs b H. unfold Py.wgs_gcj.
  replace (b && negb (sanity_in_china_p wgs)) with false
    by (destruct H as [-> | ->]; [reflexivity | now rewrite andb_false_r]).
  apply py_bind_silent; [apply py_dLat_m_silent | intros ?].
  apply py_bind_silent; [apply py_dLon_m_silent | intros ?].
  unfold Py.quot, Py.sqrt, Py.sin, Py.cos, Py.pow, Py.radians. py_silent.
Qed.

Lemma py_gcj_bd_silent : forall (gcj : Coords A) (d : bool),
  snd (Py.gcj_bd L E gcj d) = [].
Proof.
  intros gcj d. unfold Py.gcj_bd, Py.sqrt, Py.sin, Py.cos, Py.atan2, Py.radians.
  py_silent.
Qed.

Lemma py_bd_gcj_silent : forall (bd : Coords A) (d : bool),
  snd (Py.bd_gcj L E bd d) = [].
Proof.
  intros bd d. unfold Py.bd_gcj, Py.sqrt, Py.sin, Py.cos, Py.atan2, Py.radians.
  py_silent.
Qed.

(** A run of the distorting branch of [wgs_gcj] returns the value of
    the program, or raises; it issues no warning. *)
Lemma py_wgs_gcj_run : forall (wgs : Coords A) (b : bool),
  b = false \/ sanity_in_china_p wgs = true ->
  Py.wgs_gcj L E wgs b = (Returns (fst (wgs_gcj L wgs b)), [])
  \/ exists e, Py.wgs_gcj L E wgs b = (Raises e, []).
Proof.
  intros wgs b H. pose proof (py_wgs_gcj_silent wgs b H) as Hs.
  destruct (Py.wgs_gcj L E wgs b) as [[v | e] w] eqn:Hr; simpl in Hs; subst w.
  - left. apply py_wgs_gcj_returns in Hr. now rewrite Hr.
  - right. now exists e.
Qed.

Lemma py_gcj_bd_run : forall (gcj : Coords A) (d : bool),
  Py.gcj_bd L E gcj d = (Returns (gcj_bd L gcj d), [])
  \/ exists e, Py.gcj_bd L E gcj d = (Raises e, []).
Proof.
  intros gcj d. pose proof (py_gcj_bd_silent gcj d) as Hs.
  destruct (Py.gcj_bd L E gcj d) as [[v | e] w] eqn:Hr; simpl in Hs; subst w.
  - left. apply py_gcj_bd_returns in Hr. destruct Hr as [-> _]. reflexivity.
  - right. now exists e.
Qed.

Lemma py_bd_gcj_run : forall (bd : Coords A) (d : bool),
  Py.bd_gcj L E bd d = (Returns (bd_gcj L bd d), [])
  \/ exists e, Py.bd_gcj L E bd d = (Raises e, []).
Proof.
  intros bd d. pose proof (py_bd_gcj_silent bd d) as Hs.
  destruct (Py.bd_gcj L E bd d) as [[v | e] w] eqn:Hr; simpl in Hs; subst w.
  - left. apply py_bd_gcj_returns in Hr. destruct Hr as [-> _]. reflexivity.
  - right. now exists e.
Qed.

(** *** The runs in which no call raises *)

(** Lets each call at the head of a run return, in a library that
    raises nowhere. *)
Ltac py_quiet Hq :=
  destruct Hq as (Hdiv & Hsqrt & Hsin & Hcos & Hatan2 & Hpow & Hhypot & Hrad);
  unfold Py.quot, Py.sqrt, Py.sin, Py.cos, Py.atan2, Py.pow, Py.hypot,
    Py.radians;
  repeat (match goal with
          | |- Py.bind (Py.checked ?e ?v) ?f = _ =>
              replace e with (@None exn)
                by (symmetry;
                    first [ apply Hdiv | apply Hsqrt | apply Hsin | apply Hcos
                          | apply Hatan2 | apply Hpow | apply Hhypot
                          | apply Hrad ])
          end;
          cbn [Py.checked];
          match goal with
          | |- Py.bind (Py.ret ?v) ?f = _ =>
              rewrite (py_bind_ret_l A _ _ v f); cbv beta
          end).

Lemma py_dLat_m_quiet : forall x y : num A,
  never_raises E -> Py.dLat_m L E x y = Py.ret (dLat_m L x y).
Proof.
  intros x y Hq. unfold Py.dLat_m. py_quiet Hq. reflexivity.
Qed.

Lemma py_dLon_m_quiet : forall x y : num A,
  never_raises E -> Py.dLon_m L E x y = Py.ret (dLon_m L x y).
Proof.
  intros x y Hq. unfold Py.dLon_m. py_quiet Hq. reflexivity.
Qed.

Lemma py_wgs_gcj_quiet : forall (wgs : Coords A) (b : bool),
  never_raises E ->
  b = false \/ sanity_in_china_p wgs = true ->
  Py.wgs_gcj L E wgs b = (Returns (fst (wgs_gcj L wgs b)), []).
Proof.
  intros wgs b Hq H. rewrite (wgs_gcj_distorts L wgs H).
  unfold Py.wgs_gcj.
  replace (b && negb (sanity_in_china_p wgs)) with false
    by (destruct H as [-> | ->]; [reflexivity | now rewrite andb_false_r]).
  rewrite (py_dLat_m_quiet _ _ Hq).
  match goal with
  | |- Py.bind (Py.ret ?v) ?f = _ => rewrite (py_bind_ret_l A _ _ v f); cbv beta
  end.
  rewrite (py_dLon_m_quiet _ _ Hq).
  match goal with
  | |- Py.bind (Py.ret ?v) ?f = _ => rewrite (py_bind_ret_l A _ _ v f); cbv beta
  end.
  py_quiet Hq. reflexivity.
Qed.

Lemma py_gcj_bd_quiet : forall (gcj : Coords A) (d : bool),
  never_raises E -> Py.gcj_bd L E gcj d = (Returns (gcj_bd L gcj d), []).
Proof.
  intros gcj d Hq. unfold Py.gcj_bd. py_quiet Hq. reflexivity.
Qed.

Lemma py_bd_gcj_quiet : forall (bd : Coords A) (d : bool),
  never_raises E -> Py.bd_gcj L E bd d = (Returns (bd_gcj L bd d), []).
Proof.
  intros bd d Hq. unfold Py.bd_gcj. py_quiet Hq. reflexivity.
Qed.

(** *** The refined conversions *)

Lemma py_map_returns : forall (X Y : Type) (g : X -> Y) (m : Py.run A X)
    (y : Y) (w : list (diagnostic A)),
  Py.map g m = (Returns y, w) -> exists x, m = (Returns x, w) /\ y = g x.
Proof.
  intros X Y g [[x | e] w'] y w H; unfold Py.map in H; simpl in H.
  - inversion H. subst. now exists x.
  - discriminate H.
Qed.

Lemma py_map_snd : forall (X Y : Type) (g : X -> Y) (m : Py.run A X),
  snd (Py.map g m) = snd m.
Proof. intros X Y g [[x | e] w]; reflexivity. Qed.

Lemma py_rev_bored_locals_refines : forall (fwd rev : Py.conversion A)
    (target : Coords A),
  Py.map (@Refiner.of_locals A) (Py.rev_bored_locals L E fwd rev target)
  = Refiner.refine L E (Py.call fwd) (Py.call1 rev) target.
Proof.
  intros fwd rev target. unfold Py.rev_bored_locals, Refiner.refine.
  destruct (Py.call1 rev target) as [[first | e] w].
  - rewrite py_map_bind. cbn [Py.bind fst snd].
    rewrite (py_loop_repeats A L E 10 fwd target
               (mkLocals first target (mkCoords (dec 99) (dec 99)) 0) eq_refl).
    reflexivity.
  - reflexivity.
Qed.

(** A run that returns has made between 1 and 10 rounds, and fewer
    than 10 only when the magnitude of [diff] no longer exceeds
    [PRC_EPS]. *)
Lemma py_rev_bored_locals_rounds : forall (fwd rev : Py.conversion A)
    (target : Coords A) (s : locals A) (w : list (diagnostic A)),
  ltb (dec 1e-5) (math_hypot L (dec 99) (dec 99)) = true ->
  Py.rev_bored_locals L E fwd rev target = (Returns s, w) ->
  (1 <= i_ s <= 10)%nat
  /\ (i_ s = 10%nat
      \/ ltb (dec 1e-5) (math_hypot L (lat (diff_ s)) (lon (diff_ s))) = false).
Proof.
  intros fwd rev target s w Hcanary H.
  pose proof (py_rev_bored_locals_refines fwd rev target) as Hr.
  rewrite H in Hr. unfold Py.map in Hr. cbn [fst snd] in Hr.
  symmetry in Hr. unfold Refiner.refine in Hr.
  apply py_bind_inv in Hr. destruct Hr as (first & w1 & w2 & _ & Hr & _).
  apply repeat_up_to_rounds in Hr.
  cbn [Refiner.rounds Refiner.last_diff Refiner.of_locals lat lon] in Hr.
  destruct Hr as (Hle & Hstop & Hpos).
  specialize (Hpos Hcanary ltac:(lia)).
  split; [lia |]. destruct Hstop as [Hstop | Hstop]; [left; lia | now right].
Qed.

Lemma py_rev_bored_evaluations : forall (fwd rev : Py.conversion A)
    (target : Coords A) (b : bool),
  (forall c, length (snd (Py.call fwd c false)) = 1%nat) ->
  (length (snd (Py.rev_bored L E fwd rev target b))
   <= length (snd (Py.call1 rev target)) + 10)%nat.
Proof.
  intros fwd rev target b Hf. rewrite py_rev_bored_refines, py_map_snd.
  unfold Refiner.refine.
  destruct (Py.call1 rev target) as [[first | e] w].
  - cbn [Py.bind fst snd]. rewrite length_app.
    pose proof (repeat_up_to_evaluations A L E 10 (Py.call fwd) target
                  (Refiner.mkProgress first (mkCoords (dec 99) (dec 99)) 0) Hf).
    lia.
  - cbn. lia.
Qed.

Lemma py_rev_bored_total : forall (fwd rev : Py.conversion A)
    (target : Coords A) (b : bool),
  (forall x y, err_hypot E x y = None) ->
  (forall c, exists v w, Py.call fwd c false = (Returns v, w)) ->
  (exists v w, Py.call1 rev target = (Returns v, w)) ->
  exists v w, Py.rev_bored L E fwd rev target b = (Returns v, w).
Proof.
  intros fwd rev target b Hh Hf (first & w & Hr).
  rewrite py_rev_bored_refines. unfold Refiner.refine. rewrite Hr.
  destruct (repeat_up_to_returns A L E 10 (Py.call fwd) target
              (Refiner.mkProgress first (mkCoords (dec 99) (dec 99)) 0) Hh Hf)
    as (q & w' & Hq).
  cbn [Py.bind fst snd]. rewrite Hq.
  exists (Refiner.estimate q), (w ++ w'). reflexivity.
Qed.

End PyRuns.

(** ** The formulas on binary64 numbers *)

Section Binary64Formulas.

Local Open Scope float_scope.

(** Reads the operations and the literals of the source on binary64
    numbers. *)
Ltac b64_read :=
  cbv [add sub mul div absn dec B64.arith];
  repeat match goal with
         | |- context [B64.of_lit ?l] =>
             let v := eval vm_compute in (B64.of_lit l) in
             replace (B64.of_lit l) with v by (vm_compute; reflexivity)
         end.

(** On binary64 numbers the program evaluates the formulas of
    [Doc64]. *)

Lemma dLat_m_b64 : forall (L : MathLib B64.arith) (x y : float),
  dLat_m L x y = Doc64.dLat L x y.
Proof.
  intros L x y. unfold dLat_m, Doc64.dLat. b64_read. reflexivity.
Qed.

Lemma dLon_m_b64 : forall (L : MathLib B64.arith) (x y : float),
  dLon_m L x y = Doc64.dLon L x y.
Proof.
  intros L x y. unfold dLon_m, Doc64.dLon. b64_read. reflexivity.
Qed.

Lemma lat_deg_arclen_b64 : forall (L : MathLib B64.arith) (la : float),
  lat_deg_arclen L (math_radians L la) = Doc64.latArcLen L la.
Proof.
  intros L la.
  unfold lat_deg_arclen, magic_of, Doc64.latArcLen, Doc64.magic, GCJ_A, GCJ_EE.
  b64_read. reflexivity.
Qed.

Lemma lon_deg_arclen_b64 : forall (L : MathLib B64.arith) (la : float),
  lon_deg_arclen L (math_radians L la) = Doc64.lonArcLen L la.
Proof.
  intros L la.
  unfold lon_deg_arclen, magic_of, Doc64.lonArcLen, Doc64.magic, GCJ_A, GCJ_EE.
  b64_read. reflexivity.
Qed.

Lemma wgs_gcj_b64 : forall (L : MathLib B64.arith) (la lo : float) (b : bool),
  b = false \/ sanity_in_china_p (B64.point la lo) = true ->
  wgs_gcj L (B64.point la lo) b
  = (B64.point (fst (Doc64.wgsToGcj L la lo)) (snd (Doc64.wgsToGcj L la lo)),
     []).
Proof.
  intros L la lo b H. rewrite wgs_gcj_distorts by exact H.
  unfold B64.point. cbn [lat lon].
  rewrite dLat_m_b64, dLon_m_b64, lat_deg_arclen_b64, lon_deg_arclen_b64.
  unfold Doc64.wgsToGcj. cbn [fst snd]. b64_read. reflexivity.
Qed.

Lemma gcj_bd_b64 : forall (L : MathLib B64.arith) (la lo : float) (d : bool),
  gcj_bd L (B64.point la lo) d
  = B64.point (fst (Doc64.gcjToBd L la lo)) (snd (Doc64.gcjToBd L la lo)).
Proof.
  intros L la lo d. unfold Doc64.gcjToBd. cbn [fst snd].
  rewrite (b64_mul_comm 3000 (math_radians L la)).
  rewrite (b64_mul_comm 3000 (math_radians L lo)).
  unfold gcj_bd, B64.point, BD_DLAT, BD_DLON. cbn [lat lon].
  b64_read. reflexivity.
Qed.

Lemma bd_gcj_b64 : forall (L : MathLib B64.arith) (la lo : float) (d : bool),
  bd_gcj L (B64.point la lo) d
  = B64.point (fst (Doc64.bdToGcj L la lo)) (snd (Doc64.bdToGcj L la lo)).
Proof.
  intros L la lo d. unfold Doc64.bdToGcj. cbn [fst snd].
  rewrite (b64_mul_comm 3000 (math_radians L (la - 0.0060))).
  rewrite (b64_mul_comm 3000 (math_radians L (lo - 0.0065))).
  unfold bd_gcj, B64.point, BD_DLAT, BD_DLON. cbn [lat lon].
  b64_read. reflexivity.
Qed.

End Binary64Formulas.

(** ** Overflow: calls that raise at coordinates with finite components *)

Section Overflow.

Local Open Scope float_scope.

(** At longitude 1e308 the product [x * 6] overflows, and the first
    sine of [dLat_m] is asked for an infinity. *)
Lemma py_wgs_gcj_overflow : forall (L : MathLib B64.arith)
    (E : Errors B64.arith) (la : float),
  math_pi L = 3.141592653589793 ->
  err_sin E infinity = Some ValueError ->
  exists e, Py.wgs_gcj L E (B64.point la 1e308) false = (Raises e, []).
Proof.
  intros L E la Hpi Hsin. unfold Py.wgs_gcj. cbn [andb].
  unfold Py.dLat_m. cbn [lat lon B64.point].
  unfold Py.sqrt at 1.
  destruct (err_sqrt E _) as [e |].
  - exists e. reflexivity.
  - cbn [Py.checked]. 
    rewrite (py_bind_ret_l B64.arith).
    unfold Py.sin at 1. rewrite Hpi.
    match goal with
    | |- context [Py.checked (err_sin E ?a) _] =>
        replace a with infinity by (vm_compute; reflexivity)
    end.
    rewrite Hsin. exists ValueError. reflexivity.
Qed.

(** The first estimate at (0, 1e308), outside the box, is the target
    itself. *)
Lemma py_gcj_wgs_far : forall (L : MathLib B64.arith) (E : Errors B64.arith),
  Py.gcj_wgs L E (B64.point 0 1e308) true
  = (Returns (B64.point 0 1e308), [NonChinese (B64.point 0 1e308)]).
Proof.
  intros L E. unfold Py.gcj_wgs, Py.wgs_gcj.
  replace (sanity_in_china_p (B64.point 0 1e308)) with false
    by (vm_compute; reflexivity).
  cbn [andb negb]. unfold Py.bind, Py.warn, Py.ret. cbn [fst snd app].
  unfold __sub__, B64.point. cbn [lat lon]. cbv [sub B64.arith].
  replace (0 - (0 - 0)) with 0 by (vm_compute; reflexivity).
  replace (1e308 - (1e308 - 1e308)) with 1e308 by (vm_compute; reflexivity).
  reflexivity.
Qed.

Lemma py_gcj_wgs_bored_raises : forall (L : MathLib B64.arith)
    (E : Errors B64.arith),
  math_pi L = 3.141592653589793 ->
  err_sin E infinity = Some ValueError ->
  (1e-5 <? math_hypot L 99 99) = true ->
  exists e,
    Py.call (Py.gcj_wgs_bored L E) (B64.point 0 1e308) true
    = (Raises e, [NonChinese (B64.point 0 1e308)]).
Proof.
  intros L E Hpi Hsin Hcanary.
  cbn [Py.call Py.gcj_wgs_bored Py._bored].
  unfold Py.rev_bored, Py.rev_bored_locals, Py.call1.
  cbn [Py.call Py.default Py.gcj_wgs_fn]. rewrite py_gcj_wgs_far.
  cbn [Py.bind fst snd Py.loop].
  unfold Py.loop_test. cbn [i_ Nat.ltb Nat.leb diff_].
  unfold Py.__abs__. cbn [lat lon]. unfold Py.hypot.
  destruct (err_hypot E _ _) as [e |].
  - exists e. reflexivity.
  - cbn [Py.checked]. rewrite (py_bind_ret_l B64.arith).
    rewrite (py_bind_ret_l B64.arith).
    change (ltb (PRC_EPS B64.arith) (math_hypot L (dec 99) (dec 99)))
      with (1e-5 <? math_hypot L 99 99).
    rewrite Hcanary.
    unfold Py.loop_body. cbn [wgs_ Py.call Py.wgs_gcj_fn].
    destruct (py_wgs_gcj_overflow L E 0 Hpi Hsin) as [e He].
    rewrite He. exists e. reflexivity.
Qed.

End Overflow.

(** ** Runs on the real numbers *)

Section IdealRuns.

Local Open Scope R_scope.

(** On the real numbers the Baidu pair never raises: the only call
    that could is the square root, of a sum of two squares. *)
Lemma py_gcj_bd_ideal : forall (c : Coords Ideal.arith) (d : bool),
  Py.gcj_bd Ideal.math Ideal.errors c d
  = (Returns (gcj_bd Ideal.math c d), []).
Proof.
  intros c d. unfold Py.gcj_bd, Py.sqrt.
  cbn [err_sqrt Ideal.errors].
  destruct (Rlt_dec _ 0) as [Hneg | _].
  - exfalso. revert Hneg. cbv [add mul Ideal.arith].
    generalize (lon c) (lat c). intros x y. nra.
  - reflexivity.
Qed.

Lemma py_bd_gcj_ideal : forall (c : Coords Ideal.arith) (d : bool),
  Py.bd_gcj Ideal.math Ideal.errors c d
  = (Returns (bd_gcj Ideal.math c d), []).
Proof.
  intros c d. unfold Py.bd_gcj, Py.sqrt.
  cbn [err_sqrt Ideal.errors].
  destruct (Rlt_dec _ 0) as [Hneg | _].
  - exfalso. revert Hneg. cbv [add mul Ideal.arith].
    generalize (@sub Ideal.arith (lon c) (BD_DLON Ideal.arith))
               (@sub Ideal.arith (lat c) (BD_DLAT Ideal.arith)).
    intros x y. cbv [num Ideal.arith] in x, y |- *. nra.
  - reflexivity.
Qed.

End IdealRuns.

(** ** The refined conversions, with their exceptions *)




Section Overflow2.

Local Open Scope float_scope.

(** At latitude 1e307 the product [radians(y) * 3000] overflows, and
    the sine of [gcj_bd] is asked for an infinity. *)
Lemma py_gcj_bd_overflow : forall (L : MathLib B64.arith)
    (E : Errors B64.arith) (lo : float) (d : bool),
  (forall x : float, math_radians L x = x * 0.017453292519943295) ->
  err_sin E infinity = Some ValueError ->
  exists e, Py.gcj_bd L E (B64.point 1e307 lo) d = (Raises e, []).
Proof.
  intros L E lo d Hrad Hsin. unfold Py.gcj_bd. cbn [lat lon B64.point].
  unfold Py.sqrt at 1.
  destruct (err_sqrt E _) as [e |]; [exists e; reflexivity |].
  cbn [Py.checked]. rewrite (py_bind_ret_l B64.arith).
  unfold Py.radians at 1.
  destruct (err_radians E _) as [e |]; [exists e; reflexivity |].
  cbn [Py.checked]. rewrite (py_bind_ret_l B64.arith).
  unfold Py.sin at 1. rewrite Hrad.
  match goal with
  | |- context [Py.checked (err_sin E ?a) _] =>
      replace a with infinity by (vm_compute; reflexivity)
  end.
  rewrite Hsin. exists ValueError. reflexivity.
Qed.

End Overflow2.



(** ** The forward model, on binary64 numbers and on the real numbers *)



(** ** The Baidu pair, on binary64 numbers and on the real numbers *)


(** ** Vector arithmetic of the coordinates *)




(** ** The runs that return, and the program of values *)

(** X13.  In every arithmetic, and with every way the math library has
    of raising, a run of a conversion that returns gives the value and
    the warnings that the program has when every call is taken by its
    value: this holds of the six conversions and of the three refined
    ones. *)
Theorem returning_runs_agree : forall (A : Arith) (L : MathLib A) (E : Errors A),
  returns_as (Py.wgs_gcj_fn L E) (wgs_gcj_fn L)
  /\ returns_as (Py.gcj_wgs_fn L E) (gcj_wgs_fn L)
  /\ returns_as (Py.gcj_bd_fn L E) (gcj_bd_fn L)
  /\ returns_as (Py.bd_gcj_fn L E) (bd_gcj_fn L)
  /\ returns_as (Py.bd_wgs_fn L E) (bd_wgs_fn L)
  /\ returns_as (Py.wgs_bd_fn L E) (wgs_bd_fn L)
  /\ returns_as (Py.gcj_wgs_bored L E) (gcj_wgs_bored L)
  /\ returns_as (Py.bd_gcj_bored L E) (bd_gcj_bored L)
  /\ returns_as (Py.bd_wgs_bored L E) (bd_wgs_bored L).
Proof.
  intros A L E.
  assert (H1 : returns_as (Py.wgs_gcj_fn L E) (wgs_gcj_fn L))
    by (split; [reflexivity | intros c v b w; apply py_wgs_gcj_returns]).
  assert (H2 : returns_as (Py.gcj_wgs_fn L E) (gcj_wgs_fn L))
    by (split; [reflexivity | intros c v b w; apply py_gcj_wgs_returns]).
  assert (H3 : returns_as (Py.gcj_bd_fn L E) (gcj_bd_fn L)).
  { split; [reflexivity |]. intros c v b w H.
    cbn [Py.call Py.gcj_bd_fn] in H.
    apply py_gcj_bd_returns in H. destruct H as [-> ->]. reflexivity. }
  assert (H4 : returns_as (Py.bd_gcj_fn L E) (bd_gcj_fn L)).
  { split; [reflexivity |]. intros c v b w H.
    cbn [Py.call Py.bd_gcj_fn] in H.
    apply py_bd_gcj_returns in H. destruct H as [-> ->]. reflexivity. }
  assert (H5 : returns_as (Py.bd_wgs_fn L E) (bd_wgs_fn L))
    by (split; [reflexivity | intros c v b w; apply py_bd_wgs_returns]).
  assert (H6 : returns_as (Py.wgs_bd_fn L E) (wgs_bd_fn L))
    by (split; [reflexivity | intros c v b w; apply py_wgs_bd_returns]).
  split; [exact H1 |]. split; [exact H2 |]. split; [exact H3 |].
  split; [exact H4 |]. split; [exact H5 |]. split; [exact H6 |].
  split; [| split]; (split; [reflexivity |]); intros c v b w;
    cbn [Py.call call Py.gcj_wgs_bored Py.bd_gcj_bored Py.bd_wgs_bored
           Py._bored gcj_wgs_bored bd_gcj_bored bd_wgs_bored _bored];
    now apply py_rev_bored_returns.
Qed.

(** X14.  In every arithmetic, and with every way the math library has
    of raising, outside the box and with [check_china] true no call of
    the library is made: [wgs_gcj] returns its argument with the
    warning, and [gcj_wgs] returns [p - (p - p)] with it; neither can
    raise. *)
Theorem passthrough_never_raises :
  forall (A : Arith) (L : MathLib A) (E : Errors A) (p : Coords A),
    sanity_in_china_p p = false ->
    Py.wgs_gcj L E p true = (Returns p, [NonChinese p])
    /\ Py.gcj_wgs L E p true
       = (Returns (__sub__ p (__sub__ p p)), [NonChinese p]).
Proof.
  intros A L E p H.
  assert (H1 : Py.wgs_gcj L E p true = (Returns p, [NonChinese p])).
  { unfold Py.wgs_gcj. rewrite H. reflexivity. }
  split; [exact H1 |].
  unfold Py.gcj_wgs. rewrite H1. reflexivity.
Qed.

Lemma passthrough_never_raises_witness :
  sanity_in_china_p london = false
  /\ Py.wgs_gcj Ideal.math Ideal.errors london true
     = (Returns london, [NonChinese london]).
Proof.
  split.
  - exact london_outside.
  - apply (passthrough_never_raises Ideal.arith Ideal.math Ideal.errors london).
    exact london_outside.
Defined.
